(** * The Application reconciler (controllers/application_controller.go)

    A shallow embedding of the reconcile loop of the Application controller:
    discovery of component resources, the ownership claim, per-resource
    status evaluation, aggregation, and the conditional write-back.

    Conventions of the embedding.
    - Go strings are [string]; [==] on strings is [String.eqb].
    - A Go slice is a [list]; a nil slice and an empty slice are both [[]].
    - A [*unstructured.Unstructured] is a location in an explicit store
      ([heap]); several slice entries may hold the same location.
    - The API server and the REST mapper are reached through the interfaces
      [client.Client] and [meta.RESTMapper]; they are a record of functions
      over an abstract cluster state.  Reads do not change the cluster,
      updates may; an update answers ok or an error and leaves the object
      it was handed as it is.
    - A Go panic (nil dereference, [getLoggerOrDie]) is the [None] outcome
      of the state monad [M]. *)

From stdpp Require Import base option list strings gmap.
From Stdlib Require Import ZArith Lia.

Open Scope string_scope.
Open Scope list_scope.

(** ** Data model *)

(** [metav1.GroupKind] *)
Record GroupKind := mkGroupKind { gk_Group : string; gk_Kind : string }.

(** [schema.GroupVersionKind] *)
Record GroupVersionKind := mkGVK {
  gvk_Group : string; gvk_Version : string; gvk_Kind : string }.

(** [meta.RESTMapping]; only the field the reconciler reads. *)
Record RESTMapping := mkRESTMapping { rm_GroupVersionKind : GroupVersionKind }.

(** [metav1.OwnerReference] *)
Record OwnerReference := mkOwnerReference {
  or_APIVersion : string;
  or_Kind : string;
  or_Name : string;
  or_UID : string;
  or_Controller : option bool;
  or_BlockOwnerDeletion : option bool }.

(** [unstructured.Unstructured]: the fields the reconciler reads or writes;
    apiVersion and kind are held parsed, the reported conditions are the
    part of the body that the status heuristic looks at. *)
Record Unstructured := mkUnstructured {
  u_gvk : GroupVersionKind;
  u_namespace : string;
  u_name : string;
  u_selfLink : string;
  u_labels : gmap string string;
  u_ownerReferences : list OwnerReference;
  u_conditions : list (string * string) }.

Definition GetKind (u : Unstructured) : string := gvk_Kind (u_gvk u).
Definition GetName (u : Unstructured) : string := u_name u.
Definition GetNamespace (u : Unstructured) : string := u_namespace u.
Definition GetSelfLink (u : Unstructured) : string := u_selfLink u.
Definition GetGroupVersionKind (u : Unstructured) : GroupVersionKind := u_gvk u.
Definition GetOwnerReferences (u : Unstructured) : list OwnerReference :=
  u_ownerReferences u.
Definition SetOwnerReferences (u : Unstructured) (refs : list OwnerReference)
  : Unstructured :=
  {| u_gvk := u_gvk u; u_namespace := u_namespace u; u_name := u_name u;
     u_selfLink := u_selfLink u; u_labels := u_labels u;
     u_ownerReferences := refs;
     u_conditions := u_conditions u |}.

(** The zero value of [unstructured.Unstructured]. *)
Definition zeroUnstructured : Unstructured :=
  mkUnstructured (mkGVK "" "" "") "" "" "" ∅ [] [].

(** [appv1beta1.ObjectStatus] *)
Record ObjectStatus := mkObjectStatus {
  os_Group : string;
  os_Kind : string;
  os_Name : string;
  os_Link : string;
  os_Status : string }.

(** [appv1beta1.ComponentList] *)
Record ComponentList := mkComponentList { Objects : list ObjectStatus }.

(** [corev1.ConditionStatus] *)
Inductive ConditionStatus := ConditionTrue | ConditionFalse | ConditionUnknown.

(** [appv1beta1.Condition], without its timestamps. *)
Record Condition := mkCondition {
  c_Type : string;
  c_Status : ConditionStatus;
  c_Reason : string;
  c_Message : string }.

(** [appv1beta1.ApplicationStatus] *)
Record ApplicationStatus := mkApplicationStatus {
  ObservedGeneration : Z;
  Conditions : list Condition;
  st_ComponentList : ComponentList }.

(** [metav1.LabelSelector]; only [MatchLabels] is read. *)
Record LabelSelector := mkLabelSelector { MatchLabels : gmap string string }.

(** [appv1beta1.ApplicationSpec]; [Selector] is a pointer in Go, [None] is nil. *)
Record ApplicationSpec := mkApplicationSpec {
  ComponentGroupKinds : list GroupKind;
  Selector : option LabelSelector;
  AddOwnerRef : bool }.

(** [appv1beta1.Application] with the object metadata the reconciler reads. *)
Record Application := mkApplication {
  app_Namespace : string;
  app_Name : string;
  app_UID : string;
  app_Generation : Z;
  app_DeletionTimestamp : option Z;
  app_Spec : ApplicationSpec;
  app_Status : ApplicationStatus }.

Definition withStatus (app : Application) (st : ApplicationStatus) : Application :=
  {| app_Namespace := app_Namespace app; app_Name := app_Name app;
     app_UID := app_UID app; app_Generation := app_Generation app;
     app_DeletionTimestamp := app_DeletionTimestamp app;
     app_Spec := app_Spec app; app_Status := st |}.

(** [types.NamespacedName], [ctrl.Request], [ctrl.Result] *)
Record NamespacedName := mkNamespacedName { nn_Namespace : string; nn_Name : string }.
Record Request := mkRequest { req_NamespacedName : NamespacedName }.
Record Result := mkResult { Requeue : bool }.

(** Go's [error] values as the reconciler tells them apart:
    [errors.IsNotFound] against everything else. *)
Inductive error := NotFoundError (msg : string) | OtherError (msg : string).

Definition IsNotFound (e : error) : bool :=
  match e with NotFoundError _ => true | OtherError _ => false end.

#[global] Instance GroupKind_eq_dec : EqDecision GroupKind.
Proof. solve_decision. Defined.
#[global] Instance GroupVersionKind_eq_dec : EqDecision GroupVersionKind.
Proof. solve_decision. Defined.
#[global] Instance OwnerReference_eq_dec : EqDecision OwnerReference.
Proof. solve_decision. Defined.
#[global] Instance Unstructured_eq_dec : EqDecision Unstructured.
Proof. solve_decision. Defined.
#[global] Instance ObjectStatus_eq_dec : EqDecision ObjectStatus.
Proof. solve_decision. Defined.
#[global] Instance ComponentList_eq_dec : EqDecision ComponentList.
Proof. solve_decision. Defined.
#[global] Instance ConditionStatus_eq_dec : EqDecision ConditionStatus.
Proof. solve_decision. Defined.
#[global] Instance Condition_eq_dec : EqDecision Condition.
Proof. solve_decision. Defined.
#[global] Instance ApplicationStatus_eq_dec : EqDecision ApplicationStatus.
Proof. solve_decision. Defined.

(** ** Logging and the ambient context *)

Inductive LogValue :=
  | LogString (s : string)
  | LogNamespacedName (nn : NamespacedName)
  | LogGroupKind (gk : GroupKind)
  | LogGVK (gvk : GroupVersionKind).

(** A [logr.Logger] is the list of key/values attached by [WithValues]. *)
Definition Logger := list (string * LogValue).

Definition WithValues (l : Logger) (k : string) (v : LogValue) : Logger :=
  l ++ [(k, v)].

Definition loggerCtxKey : string := "logger".

(** [context.Context] restricted to the values stored under string keys. *)
Definition Context := list (string * Logger).
Definition Background : Context := [].
Definition WithValue (ctx : Context) (k : string) (l : Logger) : Context :=
  (k, l) :: ctx.
Fixpoint Value (ctx : Context) (k : string) : option Logger :=
  match ctx with
  | [] => None
  | (k', l) :: rest => if String.eqb k' k then Some l else Value rest k
  end.

(** ** The external capabilities *)

(** The embedded [client.Client], the [Mapper] and the [Log] field of
    [ApplicationReconciler], over a cluster state of type [Cluster]. *)
Record ApplicationReconciler (Cluster : Type) := mkReconciler {
  Client_Get : Cluster -> NamespacedName -> Application + error;
  Client_List : Cluster -> GroupVersionKind -> string -> gmap string string
                -> list Unstructured + error;
  Client_Update : Cluster -> Unstructured -> Cluster * option error;
  Client_UpdateApplication : Cluster -> Application -> Cluster * option error;
  Mapper_RESTMapping : Cluster -> GroupKind -> RESTMapping + error;
  Log : Logger }.

Arguments Client_Get {Cluster}.
Arguments Client_List {Cluster}.
Arguments Client_Update {Cluster}.
Arguments Client_UpdateApplication {Cluster}.
Arguments Mapper_RESTMapping {Cluster}.
Arguments Log {Cluster}.

(** Everything a pass does to the outside, in the order it does it. *)
Inductive Event :=
  | EvGet (nn : NamespacedName)
  | EvRESTMapping (gk : GroupKind)
  | EvList (gvk : GroupVersionKind) (namespace : string) (labels : gmap string string)
  | EvUpdate (obj : Unstructured)
  | EvUpdateApplication (app : Application)
  | EvLogInfo (l : Logger) (msg : string) (kvs : list (string * LogValue))
  | EvLogError (l : Logger) (e : error) (msg : string) (kvs : list (string * LogValue)).

Definition isWrite (ev : Event) : bool :=
  match ev with
  | EvUpdate _ | EvUpdateApplication _ => true
  | _ => false
  end.

Definition isApplicationWrite (ev : Event) : bool :=
  match ev with EvUpdateApplication _ => true | _ => false end.

(** A location of the store. *)
Abbreviation ptr := nat (only parsing).

Record World (Cluster : Type) := mkWorld {
  heap : list Unstructured;
  cluster : Cluster;
  trace : list Event }.

Arguments mkWorld {Cluster}.
Arguments heap {Cluster}.
Arguments cluster {Cluster}.
Arguments trace {Cluster}.

(** ** The state monad of a pass *)

(** A computation over the world; [None] is a panic. *)
Definition M (Cluster A : Type) : Type := World Cluster -> option (A * World Cluster).

Definition ret {Cluster A} (a : A) : M Cluster A := fun w => Some (a, w).

Definition bind {Cluster A B} (m : M Cluster A) (k : A -> M Cluster B) : M Cluster B :=
  fun w => match m w with
           | None => None
           | Some (a, w') => k a w'
           end.

Definition panic {Cluster A} : M Cluster A := fun _ => None.

Notation "x <- m ;; k" := (bind m (fun x => k))
  (at level 100, m at next level, right associativity).
Notation "m ;;; k" := (bind m (fun _ => k))
  (at level 100, right associativity).

(** A new variable holding [v]; the result is its address. *)
Definition alloc {Cluster} (v : Unstructured) : M Cluster ptr :=
  fun w => Some (length (heap w), mkWorld (heap w ++ [v]) (cluster w) (trace w)).

(** [*p]; a nil or dangling pointer panics. *)
Definition deref {Cluster} (p : ptr) : M Cluster Unstructured :=
  fun w => match heap w !! p with
           | Some v => Some (v, w)
           | None => None
           end.

(** [*p = v] *)
Definition assign {Cluster} (p : ptr) (v : Unstructured) : M Cluster unit :=
  fun w => match heap w !! p with
           | Some _ => Some (tt, mkWorld (<[p:=v]> (heap w)) (cluster w) (trace w))
           | None => None
           end.

Definition emit {Cluster} (ev : Event) : M Cluster unit :=
  fun w => Some (tt, mkWorld (heap w) (cluster w) (trace w ++ [ev])).

Definition LoggerInfo {Cluster} (l : Logger) (msg : string)
    (kvs : list (string * LogValue)) : M Cluster unit :=
  emit (EvLogInfo l msg kvs).

Definition LoggerError {Cluster} (l : Logger) (e : error) (msg : string)
    (kvs : list (string * LogValue)) : M Cluster unit :=
  emit (EvLogError l e msg kvs).

(** [getLoggerOrDie] *)
Definition getLoggerOrDie {Cluster} (ctx : Context) : M Cluster Logger :=
  match Value ctx loggerCtxKey with
  | Some logger => ret logger
  | None => panic
  end.

(** ** Semantic equality of the API machinery *)

(** The dynamic type of the two values handed to [DeepEqual]. *)
Inductive GoType := TApplicationStatus | TPointerTo (t : GoType).

(** An [interface{}] holding a status or a (non-nil) pointer to one. *)
Inductive AnyValue :=
  | StatusValue (s : ApplicationStatus)
  | StatusPointer (pointee : ApplicationStatus).

Definition TypeOf (v : AnyValue) : GoType :=
  match v with
  | StatusValue _ => TApplicationStatus
  | StatusPointer _ => TPointerTo TApplicationStatus
  end.

Fixpoint GoType_eqb (a b : GoType) : bool :=
  match a, b with
  | TApplicationStatus, TApplicationStatus => true
  | TPointerTo a', TPointerTo b' => GoType_eqb a' b'
  | _, _ => false
  end.

Definition contents (v : AnyValue) : ApplicationStatus :=
  match v with StatusValue s => s | StatusPointer s => s end.

(** [equality.Semantic.DeepEqual(a1, a2)] of k8s.io/apimachinery: like
    [reflect.DeepEqual], values of distinct dynamic types are never equal
    ([if v1.Type() != v2.Type() { return false }]); values of the same type
    are compared structurally, pointers through their pointees. *)
Definition DeepEqual (a1 a2 : AnyValue) : bool :=
  if negb (GoType_eqb (TypeOf a1) (TypeOf a2)) then false
  else bool_decide (contents a1 = contents a2).

(** ** Condition helpers *)

Definition Ready : string := "Ready".

(** Modelled from the spec: [setCondition], the helper behind
    [setReadyCondition] and [setNotReadyCondition], is declared outside this
    file.  The status holds one aggregate condition per type (data model:
    readiness, machine-readable reason, human-readable message; the
    timestamps are not modelled); setting it replaces the entry of that
    type or adds it. *)
Fixpoint setCondition (conds : list Condition) (ctype : string)
    (status : ConditionStatus) (reason message : string) : list Condition :=
  match conds with
  | [] => [mkCondition ctype status reason message]
  | c :: rest =>
      if String.eqb (c_Type c) ctype
      then mkCondition ctype status reason message :: rest
      else c :: setCondition rest ctype status reason message
  end.

(** Modelled from the spec: [setReadyCondition] is declared outside this
    file; step 6 of the driver sets "a Ready ... condition with a fixed
    reason string". *)
Definition setReadyCondition (st : ApplicationStatus) (reason message : string)
  : ApplicationStatus :=
  {| ObservedGeneration := ObservedGeneration st;
     Conditions := setCondition (Conditions st) Ready ConditionTrue reason message;
     st_ComponentList := st_ComponentList st |}.

(** Modelled from the spec: [setNotReadyCondition] is declared outside this
    file; step 6 of the driver sets "a ... NotReady condition with a fixed
    reason string". *)
Definition setNotReadyCondition (st : ApplicationStatus) (reason message : string)
  : ApplicationStatus :=
  {| ObservedGeneration := ObservedGeneration st;
     Conditions := setCondition (Conditions st) Ready ConditionFalse reason message;
     st_ComponentList := st_ComponentList st |}.

(** The aggregate condition stored in a status. *)
Fixpoint getCondition (conds : list Condition) (ctype : string) : option Condition :=
  match conds with
  | [] => None
  | c :: rest => if String.eqb (c_Type c) ctype then Some c else getCondition rest ctype
  end.

(** ** Owner references *)

(** [schema.GroupVersion] and its [String] and [WithKind]. *)
Record GroupVersion := mkGroupVersion { gv_Group : string; gv_Version : string }.

Definition GroupVersion_String (gv : GroupVersion) : string :=
  if String.eqb (gv_Group gv) "" then gv_Version gv
  else String.append (gv_Group gv) (String.append "/" (gv_Version gv)).

Definition WithKind (gv : GroupVersion) (kind : string) : GroupVersionKind :=
  mkGVK (gv_Group gv) (gv_Version gv) kind.

(** [metav1.NewControllerRef(owner, gvk)] *)
Definition NewControllerRef (owner : Application) (gvk : GroupVersionKind)
  : OwnerReference :=
  {| or_APIVersion := GroupVersion_String (mkGroupVersion (gvk_Group gvk) (gvk_Version gvk));
     or_Kind := gvk_Kind gvk;
     or_Name := app_Name owner;
     or_UID := app_UID owner;
     or_Controller := Some true;
     or_BlockOwnerDeletion := Some true |}.

(** [*ownerRef.Controller = b]; a nil [Controller] panics. *)
Definition setController {Cluster} (o : OwnerReference) (b : bool)
  : M Cluster OwnerReference :=
  match or_Controller o with
  | Some _ =>
      ret {| or_APIVersion := or_APIVersion o; or_Kind := or_Kind o;
             or_Name := or_Name o; or_UID := or_UID o;
             or_Controller := Some b;
             or_BlockOwnerDeletion := or_BlockOwnerDeletion o |}
  | None => panic
  end.

(** The test of lines 145-147: same kind, apiVersion and name. *)
Definition sameOwner (ownerRef refs : OwnerReference) : bool :=
  String.eqb (or_Kind ownerRef) (or_Kind refs) &&
  String.eqb (or_APIVersion ownerRef) (or_APIVersion refs) &&
  String.eqb (or_Name ownerRef) (or_Name refs).

(** The loop of lines 144-153, [for i, refs := range ownerRefs]: [n] entries
    are left to visit, [i] is the index, the element is read from the
    slice, and a match with another UID is overwritten at its index. *)
Fixpoint scanOwnerRefs (ownerRef : OwnerReference) (n i : nat)
    (ownerRefs : list OwnerReference) (ownerRefFound : bool)
  : list OwnerReference * bool :=
  match n with
  | O => (ownerRefs, ownerRefFound)
  | S n' =>
      match ownerRefs !! i with
      | None => (ownerRefs, ownerRefFound)
      | Some refs =>
          if sameOwner ownerRef refs
          then scanOwnerRefs ownerRef n' (S i)
                 (if negb (String.eqb (or_UID ownerRef) (or_UID refs))
                  then <[i:=ownerRef]> ownerRefs else ownerRefs)
                 true
          else scanOwnerRefs ownerRef n' (S i) ownerRefs ownerRefFound
      end
  end.

(** Lines 142-157: the owner references written back to one resource. *)
Definition claimOwnerRefs (ownerRef : OwnerReference)
    (ownerRefs : list OwnerReference) : list OwnerReference :=
  let '(ownerRefs', ownerRefFound) :=
    scanOwnerRefs ownerRef (length ownerRefs) 0 ownerRefs false in
  if negb ownerRefFound then ownerRefs' ++ [ownerRef] else ownerRefs'.

(** An entry after the scan: overwritten when it has the owner's kind,
    apiVersion and name under another UID. *)
Definition overwrite (ownerRef refs : OwnerReference) : OwnerReference :=
  if sameOwner ownerRef refs && negb (String.eqb (or_UID ownerRef) (or_UID refs))
  then ownerRef else refs.

(** The ownership step as the spec words it: look for an entry with the
    owner's kind, apiVersion and name; overwrite in place the entries found
    whose UID differs; append when none is found. *)
Definition claim_spec (ownerRef : OwnerReference)
    (ownerRefs : list OwnerReference) : list OwnerReference :=
  if existsb (sameOwner ownerRef) ownerRefs
  then map (overwrite ownerRef) ownerRefs
  else ownerRefs ++ [ownerRef].

(** The number of entries with the owner's kind, apiVersion and name. *)
Definition owned (o : OwnerReference) (l : list OwnerReference) : nat :=
  length (List.filter (sameOwner o) l).

(** ** The reconciler *)

Section Reconciler.

Context {Cluster : Type}.

(** The receiver [r]. *)
Variable r : ApplicationReconciler Cluster.

(** The package-level [status] function (the per-kind readiness
    heuristic), the constant [StatusReady] and the API group/version
    [appv1beta1.GroupVersion] are declared outside this file. *)
Variable status : Unstructured -> string + error.
Variable StatusReady : string.
Variable appv1beta1_GroupVersion : GroupVersion.

(** *** Calls into the client and the mapper *)

Definition Get (nn : NamespacedName) : M Cluster (Application + error) :=
  fun w => Some (Client_Get r (cluster w) nn,
                 mkWorld (heap w) (cluster w) (trace w ++ [EvGet nn])).

Definition RESTMappingFor (gk : GroupKind) : M Cluster (RESTMapping + error) :=
  fun w => Some (Mapper_RESTMapping r (cluster w) gk,
                 mkWorld (heap w) (cluster w) (trace w ++ [EvRESTMapping gk])).

Definition List (gvk : GroupVersionKind) (namespace : string)
    (labels : gmap string string) : M Cluster (list Unstructured + error) :=
  fun w => Some (Client_List r (cluster w) gvk namespace labels,
                 mkWorld (heap w) (cluster w)
                         (trace w ++ [EvList gvk namespace labels])).

(** [r.Client.Update(ctx, resource)] on the resource held at [p]. *)
Definition Update (p : ptr) : M Cluster (option error) :=
  fun w => match heap w !! p with
           | None => None
           | Some obj =>
               let '(c', err) := Client_Update r (cluster w) obj in
               Some (err, mkWorld (heap w) c' (trace w ++ [EvUpdate obj]))
           end.

(** [r.Client.Update(ctx, &app)] *)
Definition UpdateApplication (app : Application) : M Cluster (option error) :=
  fun w => let '(c', err) := Client_UpdateApplication r (cluster w) app in
           Some (err, mkWorld (heap w) c' (trace w ++ [EvUpdateApplication app])).

(** *** fetchComponentListResources *)

(** Lines 132-134.  The range variable [u] is one variable for the whole
    loop statement (the language semantics this module is written
    against: a fresh variable per iteration only exists from Go 1.22 on,
    for modules that declare it); every iteration assigns the next item
    to it and appends its address. *)
Fixpoint rangeItems (u : ptr) (items : list Unstructured)
    (resources : list ptr) : M Cluster (list ptr) :=
  match items with
  | [] => ret resources
  | item :: rest =>
      assign u item ;;;
      rangeItems u rest (resources ++ [u])
  end.

Definition appendItems (items : list Unstructured) (resources : list ptr)
  : M Cluster (list ptr) :=
  u <- alloc zeroUnstructured ;;
  rangeItems u items resources.

(** Lines 116-135: the loop over [groupKinds]; [continue] goes on with
    the remaining pairs, [return] leaves the function. *)
Fixpoint fetchLoop (logger : Logger) (selector : option LabelSelector)
    (namespace : string) (groupKinds : list GroupKind) (resources : list ptr)
  : M Cluster (list ptr * option error) :=
  match groupKinds with
  | [] => ret (resources, None)
  | gk :: rest =>
      m <- RESTMappingFor (mkGroupKind (gk_Group gk) (gk_Kind gk)) ;;
      match m with
      | inr _ =>
          LoggerInfo logger "NoMappingForGK" [("gk", LogGroupKind gk)] ;;;
          fetchLoop logger selector namespace rest resources
      | inl mapping =>
          match selector with
          | None => panic
          | Some sel =>
              l <- List (rm_GroupVersionKind mapping) namespace (MatchLabels sel) ;;
              match l with
              | inr err => ret (resources, Some err)
              | inl items =>
                  resources' <- appendItems items resources ;;
                  fetchLoop logger selector namespace rest resources'
              end
          end
      end
  end.

Definition fetchComponentListResources (ctx : Context)
    (groupKinds : list GroupKind) (selector : option LabelSelector)
    (namespace : string) : M Cluster (list ptr * option error) :=
  logger <- getLoggerOrDie ctx ;;
  fetchLoop logger selector namespace groupKinds [].

(** *** setOwnerRefForResources *)

Definition resourceKeys (resource : Unstructured) : list (string * LogValue) :=
  [("gvk", LogGVK (GetGroupVersionKind resource));
   ("namespace", LogString (GetNamespace resource));
   ("name", LogString (GetName resource))].

(** Lines 141-165. *)
Fixpoint setOwnerRefLoop (logger : Logger) (ownerRef : OwnerReference)
    (resources : list ptr) : M Cluster unit :=
  match resources with
  | [] => ret tt
  | resource :: rest =>
      obj <- deref resource ;;
      let ownerRefs := claimOwnerRefs ownerRef (GetOwnerReferences obj) in
      assign resource (SetOwnerReferences obj ownerRefs) ;;;
      err <- Update resource ;;
      match err with
      | Some e =>
          obj' <- deref resource ;;
          LoggerError logger e "ErrorSettingOwnerRef" (resourceKeys obj')
      | None => ret tt
      end ;;;
      setOwnerRefLoop logger ownerRef rest
  end.

Definition setOwnerRefForResources (ctx : Context) (ownerRef : OwnerReference)
    (resources : list ptr) : M Cluster (option error) :=
  logger <- getLoggerOrDie ctx ;;
  setOwnerRefLoop logger ownerRef resources ;;;
  ret None.

(** *** objectStatuses *)

(** Lines 173-178. *)
Definition newObjectStatus (resource : Unstructured) : ObjectStatus :=
  {| os_Group := gvk_Group (GetGroupVersionKind resource);
     os_Kind := GetKind resource;
     os_Name := GetName resource;
     os_Link := GetSelfLink resource;
     os_Status := "" |}.

Definition withObjectStatus (os : ObjectStatus) (s : string) : ObjectStatus :=
  {| os_Group := os_Group os; os_Kind := os_Kind os; os_Name := os_Name os;
     os_Link := os_Link os; os_Status := s |}.

(** Lines 172-188. *)
Fixpoint objectStatusesLoop (logger : Logger) (resources : list ptr)
    (objectStatuses : list ObjectStatus) : M Cluster (list ObjectStatus) :=
  match resources with
  | [] => ret objectStatuses
  | resource :: rest =>
      obj <- deref resource ;;
      let os := newObjectStatus obj in
      match status obj with
      | inr err =>
          LoggerError logger err "unable to compute status for resource"
                      (resourceKeys obj) ;;;
          objectStatusesLoop logger rest objectStatuses
      | inl s =>
          objectStatusesLoop logger rest (objectStatuses ++ [withObjectStatus os s])
      end
  end.

Definition objectStatuses (ctx : Context) (resources : list ptr)
  : M Cluster (list ObjectStatus) :=
  logger <- getLoggerOrDie ctx ;;
  objectStatusesLoop logger resources [].

(** *** aggregateReady *)

Fixpoint aggregateReady (objectStatuses : list ObjectStatus) : bool :=
  match objectStatuses with
  | [] => true
  | os :: rest =>
      if negb (String.eqb (os_Status os) StatusReady) then false
      else aggregateReady rest
  end.

(** *** Reconcile *)

(** [app.Status.DeepCopy()] *)
Definition DeepCopy (st : ApplicationStatus) : ApplicationStatus := st.

(** Lines 87-98: the candidate status. *)
Definition newApplicationStatus (app : Application)
    (objectStatuses : list ObjectStatus) : ApplicationStatus :=
  let new0 := DeepCopy (app_Status app) in
  let new1 := {| ObservedGeneration := app_Generation app;
                 Conditions := Conditions new0;
                 st_ComponentList := mkComponentList objectStatuses |} in
  if aggregateReady objectStatuses
  then setReadyCondition new1 "ComponentsReady" "all components ready"
  else setNotReadyCondition new1 "ComponentsNotReady" "some components not ready".

(** Lines 76-82. *)
Definition claimOwnership (ctx : Context) (app : Application)
    (resources : list ptr) : M Cluster (option error) :=
  if AddOwnerRef (app_Spec app) then
    ownerRef <- setController
                  (NewControllerRef app (WithKind appv1beta1_GroupVersion "Application"))
                  false ;;
    setOwnerRefForResources ctx ownerRef resources
  else ret None.

(** Lines 102-110. *)
Definition writeBack (app : Application) (new : ApplicationStatus)
  : M Cluster (Result * option error) :=
  if DeepEqual (StatusPointer new) (StatusValue (app_Status app))
  then ret (mkResult false, None)
  else
    err <- UpdateApplication (withStatus app new) ;;
    match err with
    | Some e => ret (mkResult true, Some e)
    | None => ret (mkResult false, None)
    end.

(** Lines 53-55: the request's logger, and the context that carries it. *)
Definition requestLogger (req : Request) : Logger :=
  WithValues (Log r) "application" (LogNamespacedName (req_NamespacedName req)).

Definition requestContext (req : Request) : Context :=
  let rootCtx := Background in
  let logger := requestLogger req in
  WithValue rootCtx loggerCtxKey logger.

(** Lines 53-98: everything before the comparison.  [inl] is a pass that
    has returned, [inr] carries the fetched Application and the
    candidate status. *)
Definition composeStatus (req : Request)
  : M Cluster ((Result * option error) + (Application * ApplicationStatus)) :=
  let ctx := requestContext req in
  got <- Get (req_NamespacedName req) ;;
  match got with
  | inr err =>
      if IsNotFound err then ret (inl (mkResult false, None))
      else ret (inl (mkResult true, Some err))
  | inl app =>
      match app_DeletionTimestamp app with
      | Some _ => ret (inl (mkResult false, None))
      | None =>
          fetched <- fetchComponentListResources ctx
                       (ComponentGroupKinds (app_Spec app))
                       (Selector (app_Spec app)) (app_Namespace app) ;;
          match fetched with
          | (_, Some err) => ret (inl (mkResult true, Some err))
          | (resources, None) =>
              claimed <- claimOwnership ctx app resources ;;
              match claimed with
              | Some err => ret (inl (mkResult true, Some err))
              | None =>
                  objs <- objectStatuses ctx resources ;;
                  ret (inr (app, newApplicationStatus app objs))
              end
          end
      end
  end.

Definition Reconcile (req : Request) : M Cluster (Result * option error) :=
  composed <- composeStatus req ;;
  match composed with
  | inl returned => ret returned
  | inr (app, new) => writeBack app new
  end.

End Reconciler.

(** ** What the functions compute, on values

    Pure counterparts of the loops, over the values the pointers refer to.
    The theorems below relate the monadic functions to them. *)

(** The values behind a list of pointers; [None] when one dangles. *)
Definition derefs (h : list Unstructured) (ps : list ptr) : option (list Unstructured) :=
  mapM (fun p => h !! p) ps.

(** [pointsTo h ps vs]: the pointers [ps] are valid in [h] and refer to [vs]. *)
Definition pointsTo (h : list Unstructured) (ps : list ptr) (vs : list Unstructured) : Prop :=
  Forall2 (fun p v => h !! p = Some v) ps vs.

(** [emits P w w']: from [w] to [w'] the trace grew by events satisfying [P]. *)
Definition emits {Cluster} (P : Event -> Prop) (w w' : World Cluster) : Prop :=
  exists evs, trace w' = trace w ++ evs /\ Forall P evs.

(** What the addresses appended by one run of the inner loop of
    [fetchComponentListResources] refer to once the loop is over: the
    shared range variable holds the last item. *)
Definition aliased (items : list Unstructured) : list Unstructured :=
  replicate (length items) (default zeroUnstructured (last items)).

Section Values.

Context {Cluster : Type}.
Variable r : ApplicationReconciler Cluster.
Variable status : Unstructured -> string + error.

(** Discovery as the spec words it: the items listed for each resolvable
    pair, in the order of [groupKinds] and then of the listing. *)
Definition discover_spec (c : Cluster) (groupKinds : list GroupKind)
    (labels : gmap string string) (namespace : string) : list Unstructured :=
  flat_map (fun gk =>
              match Mapper_RESTMapping r c gk with
              | inr _ => []
              | inl mapping =>
                  match Client_List r c (rm_GroupVersionKind mapping) namespace labels with
                  | inr _ => []
                  | inl items => items
                  end
              end) groupKinds.

(** Discovery as the code performs it, on values: [None] is the panic on
    a nil selector, the error is the first list failure. *)
Fixpoint discovered (c : Cluster) (selector : option LabelSelector)
    (namespace : string) (groupKinds : list GroupKind) (acc : list Unstructured)
  : option (list Unstructured * option error) :=
  match groupKinds with
  | [] => Some (acc, None)
  | gk :: rest =>
      match Mapper_RESTMapping r c gk with
      | inr _ => discovered c selector namespace rest acc
      | inl mapping =>
          match selector with
          | None => None
          | Some sel =>
              match Client_List r c (rm_GroupVersionKind mapping) namespace
                                (MatchLabels sel) with
              | inr err => Some (acc, Some err)
              | inl items =>
                  discovered c selector namespace rest (acc ++ aliased items)
              end
          end
      end
  end.

(** One resource after the ownership step. *)
Definition claimResource (ownerRef : OwnerReference) (obj : Unstructured)
  : Unstructured :=
  SetOwnerReferences obj (claimOwnerRefs ownerRef (GetOwnerReferences obj)).

(** The entry of one resource, when its status can be computed. *)
Definition evaluate (obj : Unstructured) : option ObjectStatus :=
  match status obj with
  | inl s => Some (withObjectStatus (newObjectStatus obj) s)
  | inr _ => None
  end.

(** The entries of the resources whose evaluation succeeds, in order. *)
Definition evaluated (objs : list Unstructured) : list ObjectStatus :=
  omap evaluate objs.

(** The log entries of the resources whose evaluation fails, in order. *)
Definition evaluationLog (logger : Logger) (objs : list Unstructured) : list Event :=
  flat_map (fun obj =>
              match status obj with
              | inl _ => []
              | inr err => [EvLogError logger err
                              "unable to compute status for resource"
                              (resourceKeys obj)]
              end) objs.

(** The calls and log entries of a discovery that resolves no pair. *)
Definition unknownKindLog (logger : Logger) (groupKinds : list GroupKind)
  : list Event :=
  flat_map (fun gk => [EvRESTMapping (mkGroupKind (gk_Group gk) (gk_Kind gk));
                       EvLogInfo logger "NoMappingForGK" [("gk", LogGroupKind gk)]])
           groupKinds.

(** The events of one turn of the loop of lines 141-165. *)
Definition claimEvents (logger : Logger) (obj : Unstructured) (err : option error)
  : list Event :=
  EvUpdate obj ::
  match err with
  | Some e => [EvLogError logger e "ErrorSettingOwnerRef" (resourceKeys obj)]
  | None => []
  end.

(** The owner reference built at lines 77-78: a reference to the
    Application that is marked as not controlling. *)
Definition applicationOwnerRef (gv : GroupVersion) (app : Application)
  : OwnerReference :=
  {| or_APIVersion := GroupVersion_String gv;
     or_Kind := "Application";
     or_Name := app_Name app;
     or_UID := app_UID app;
     or_Controller := Some false;
     or_BlockOwnerDeletion := Some true |}.

(** The resources as the evaluation sees them: after the ownership step
    when the Application asks for it. *)
Definition claimedValues (gv : GroupVersion) (app : Application)
    (vals : list Unstructured) : list Unstructured :=
  if AddOwnerRef (app_Spec app)
  then map (claimResource (applicationOwnerRef gv app)) vals
  else vals.

(** The candidate status of a pass that discovered [vals]. *)
Definition candidateStatus (StatusReady : string) (gv : GroupVersion)
    (app : Application) (vals : list Unstructured) : ApplicationStatus :=
  newApplicationStatus StatusReady app (evaluated (claimedValues gv app vals)).

(** The world after the [Get] of a pass. *)
Definition afterGet (req : Request) (w : World Cluster) : World Cluster :=
  mkWorld (heap w) (cluster w) (trace w ++ [EvGet (req_NamespacedName req)]).

End Values.

(** What every Application written by a pass records: the Ready condition
    that goes with the verdict over the component list it carries. *)
Definition verdictCondition (StatusReady : string) (st : ApplicationStatus) : Condition :=
  if aggregateReady StatusReady (Objects (st_ComponentList st))
  then mkCondition Ready ConditionTrue "ComponentsReady" "all components ready"
  else mkCondition Ready ConditionFalse "ComponentsNotReady" "some components not ready".

Definition recordsVerdict (StatusReady : string) (ev : Event) : Prop :=
  match ev with
  | EvUpdateApplication app =>
      getCondition (Conditions (app_Status app)) Ready
      = Some (verdictCondition StatusReady (app_Status app))
  | _ => True
  end.

(** ** Vocabulary for the further properties *)

(** The updates the ownership step issues for resources with values [vals]. *)
Definition claimUpdates (o : OwnerReference) (vals : list Unstructured) : list Event :=
  map (fun v => EvUpdate (claimResource o v)) vals.

(** The same, read through the pointers in the store [h]. *)
Definition updatesAt (o : OwnerReference) (h : list Unstructured) (ps : list ptr)
  : list Event :=
  omap (fun p => (fun v => EvUpdate (claimResource o v)) <$> h !! p) ps.

(** The mapper knows the pair. *)
Definition resolves {Cluster} (r : ApplicationReconciler Cluster) (c : Cluster)
    (gk : GroupKind) : Prop :=
  exists mapping, Mapper_RESTMapping r c gk = inl mapping.

(** A log entry was written through [logger]; other events pass. *)
Definition taggedBy (logger : Logger) (ev : Event) : Prop :=
  match ev with
  | EvLogInfo l _ _ => l = logger
  | EvLogError l _ _ _ => l = logger
  | _ => True
  end.

(** Two answers of the mapper that a pass cannot tell apart: the same
    mapping, or two failures (the error of a failed resolution is dropped
    at line 121). *)
Definition sameMapping (a b : RESTMapping + error) : Prop :=
  match a, b with
  | inl m1, inl m2 => m1 = m2
  | inr _, inr _ => True
  | _, _ => False
  end.

(** Two clusters answer alike to the reads of a pass over [app]: to the
    resolution of each of its component kinds, and, for each kind that
    resolves, to the listing of that kind in the Application's namespace
    under the labels of its selector. *)
Definition sameReads {Cluster} (r : ApplicationReconciler Cluster) (c1 c2 : Cluster)
    (app : Application) : Prop :=
  (forall gk, gk ∈ ComponentGroupKinds (app_Spec app) ->
              sameMapping (Mapper_RESTMapping r c1 gk) (Mapper_RESTMapping r c2 gk))
  /\ (forall gk mapping sel,
        gk ∈ ComponentGroupKinds (app_Spec app) ->
        Mapper_RESTMapping r c1 gk = inl mapping ->
        Selector (app_Spec app) = Some sel ->
        Client_List r c1 (rm_GroupVersionKind mapping) (app_Namespace app)
                    (MatchLabels sel)
        = Client_List r c2 (rm_GroupVersionKind mapping) (app_Namespace app)
                      (MatchLabels sel)).

(** The pair, when it resolves, lists at most one item. *)
Definition listsAtMostOne {Cluster} (r : ApplicationReconciler Cluster) (c : Cluster)
    (sel : LabelSelector) (namespace : string) (gk : GroupKind) : Prop :=
  forall mapping,
    Mapper_RESTMapping r c gk = inl mapping ->
    exists items,
      Client_List r c (rm_GroupVersionKind mapping) namespace (MatchLabels sel)
      = inl items
      /\ length items <= 1.

(** The writes among a list of events. *)
Definition writes (evs : list Event) : list Event := List.filter isWrite evs.

(** ** An in-memory cluster

    A small implementation of the client and the mapper, to run the
    reconciler on concrete clusters. *)

Module Mem.

Record Cluster := mkCluster {
  applications : list Application;
  mappings : list (GroupKind * GroupVersionKind);
  resources : list Unstructured;
  failGet : bool;
  failList : bool;
  failUpdate : bool;
  failUpdateApplication : bool }.

Definition sameName (nn : NamespacedName) (app : Application) : bool :=
  String.eqb (app_Namespace app) (nn_Namespace nn) &&
  String.eqb (app_Name app) (nn_Name nn).

Definition get (c : Cluster) (nn : NamespacedName) : Application + error :=
  if failGet c then inr (OtherError "get failed")
  else match find (sameName nn) (applications c) with
       | Some app => inl app
       | None => inr (NotFoundError "application not found")
       end.

Definition restMapping (c : Cluster) (gk : GroupKind) : RESTMapping + error :=
  match find (fun m => bool_decide (fst m = gk)) (mappings c) with
  | Some m => inl (mkRESTMapping (snd m))
  | None => inr (OtherError "no matches for kind")
  end.

Definition hasLabels (labels : gmap string string) (u : Unstructured) : bool :=
  forallb (fun kv => bool_decide (u_labels u !! fst kv = Some (snd kv)))
          (map_to_list labels).

Definition listResources (c : Cluster) (gvk : GroupVersionKind) (namespace : string)
    (labels : gmap string string) : list Unstructured + error :=
  if failList c then inr (OtherError "list failed")
  else inl (filter (fun u => bool_decide (u_gvk u = gvk)
                             && String.eqb (u_namespace u) namespace
                             && hasLabels labels u = true)
                   (resources c)).

Definition sameResource (a b : Unstructured) : bool :=
  bool_decide (u_gvk a = u_gvk b) &&
  String.eqb (u_namespace a) (u_namespace b) &&
  String.eqb (u_name a) (u_name b).

Definition update (c : Cluster) (obj : Unstructured) : Cluster * option error :=
  if failUpdate c then (c, Some (OtherError "update failed"))
  else (mkCluster (applications c) (mappings c)
                  (map (fun u => if sameResource obj u then obj else u) (resources c))
                  (failGet c) (failList c) (failUpdate c) (failUpdateApplication c),
        None).

Definition updateApplication (c : Cluster) (app : Application)
  : Cluster * option error :=
  if failUpdateApplication c then (c, Some (OtherError "update failed"))
  else (mkCluster
          (map (fun a => if sameName (mkNamespacedName (app_Namespace app) (app_Name app)) a
                         then app else a) (applications c))
          (mappings c) (resources c)
          (failGet c) (failList c) (failUpdate c) (failUpdateApplication c),
        None).

Definition reconciler : ApplicationReconciler Cluster :=
  mkReconciler Cluster get listResources update updateApplication restMapping [].

(** A status heuristic on the in-memory resources: the resource reports
    condition Ready=True, or Ready with another value; a resource
    without a Ready condition is unreadable. *)
Fixpoint status (conds : list (string * string)) : string + error :=
  match conds with
  | [] => inr (OtherError "no Ready condition")
  | (t, v) :: rest =>
      if String.eqb t "Ready"
      then inl (if String.eqb v "True" then "Ready" else "InProgress")
      else status rest
  end.

Definition statusOf (u : Unstructured) : string + error := status (u_conditions u).

Definition groupVersion : GroupVersion := mkGroupVersion "app.k8s.io" "v1beta1".

Definition start (c : Cluster) : World Cluster := mkWorld [] c [].

Definition run (c : Cluster) (req : Request)
  : option ((Result * option error) * World Cluster) :=
  Reconcile reconciler statusOf "Ready" groupVersion req (start c).

(** The end-to-end scenario: Application app1 selects kind Widget with
    label app=app1. *)
Definition widgetGK : GroupKind := mkGroupKind "example.com" "Widget".
Definition widgetGVK : GroupVersionKind := mkGVK "example.com" "v1" "Widget".

Definition widget (name ready : string) : Unstructured :=
  mkUnstructured widgetGVK "default" name
                 (String.append "/apis/example.com/v1/widgets/" name)
                 {[ "app" := "app1" ]} [] [("Ready", ready)].

Definition app1 (st : ApplicationStatus) : Application :=
  mkApplication "default" "app1" "uid-1" 1 None
                (mkApplicationSpec [widgetGK]
                   (Some (mkLabelSelector {[ "app" := "app1" ]})) false)
                st.

Definition emptyStatus : ApplicationStatus :=
  mkApplicationStatus 0 [] (mkComponentList []).

Definition request1 : Request := mkRequest (mkNamespacedName "default" "app1").

Definition clusterWith (st : ApplicationStatus) (ws : list Unstructured) : Cluster :=
  mkCluster [app1 st] [(widgetGK, widgetGVK)] ws false false false false.

(** The context of a pass: the logger under [loggerCtxKey]. *)
Definition logger1 : Logger :=
  WithValues [] "application" (LogNamespacedName (req_NamespacedName request1)).
Definition ctx1 : Context := WithValue Background loggerCtxKey logger1.

Definition selector1 : LabelSelector := mkLabelSelector {[ "app" := "app1" ]}.

Definition widgetA : Unstructured := widget "a" "True".
Definition widgetB : Unstructured := widget "b" "False".

(** An owner reference to app1 left by an earlier incarnation of the
    Application (another UID), and the one of the present incarnation. *)
Definition staleRef : OwnerReference :=
  mkOwnerReference "app.k8s.io/v1beta1" "Application" "app1" "uid-0"
                   (Some false) (Some true).
Definition ownerRef1 : OwnerReference :=
  mkOwnerReference "app.k8s.io/v1beta1" "Application" "app1" "uid-1"
                   (Some false) (Some true).
Definition otherRef : OwnerReference :=
  mkOwnerReference "apps/v1" "Deployment" "web" "uid-9" (Some true) (Some true).

Definition withOwners (u : Unstructured) (refs : list OwnerReference) : Unstructured :=
  SetOwnerReferences u refs.

(** app1 marked for deletion. *)
Definition deletedApp1 : Application :=
  mkApplication "default" "app1" "uid-1" 1 (Some 1700000000%Z)
                (mkApplicationSpec [widgetGK] (Some selector1) false) emptyStatus.

Definition emptyCluster : Cluster := mkCluster [] [] [] false false false false.
Definition brokenCluster : Cluster := mkCluster [] [] [] true false false false.
Definition deletingCluster : Cluster :=
  mkCluster [deletedApp1] [(widgetGK, widgetGVK)] [widgetA] false false false false.

(** The status a pass composes for app1 over the single Widget a, which
    reports Ready=True. *)
Definition settledStatus : ApplicationStatus :=
  mkApplicationStatus 1
    [mkCondition "Ready" ConditionTrue "ComponentsReady" "all components ready"]
    (mkComponentList
       [mkObjectStatus "example.com" "Widget" "a"
                       "/apis/example.com/v1/widgets/a" "Ready"]).

Definition settledCluster : Cluster := clusterWith settledStatus [widgetA].

(** Three components of three kinds; the second has no Ready condition,
    so its status cannot be computed. *)
Definition gadgetGK : GroupKind := mkGroupKind "example.com" "Gadget".
Definition gadgetGVK : GroupVersionKind := mkGVK "example.com" "v1" "Gadget".
Definition gizmoGK : GroupKind := mkGroupKind "example.com" "Gizmo".
Definition gizmoGVK : GroupVersionKind := mkGVK "example.com" "v1" "Gizmo".

Definition componentA : Unstructured := widgetA.
Definition componentB : Unstructured :=
  mkUnstructured gadgetGVK "default" "b" "/apis/example.com/v1/gadgets/b"
                 {[ "app" := "app1" ]} [] [].
Definition componentC : Unstructured :=
  mkUnstructured gizmoGVK "default" "c" "/apis/example.com/v1/gizmos/c"
                 {[ "app" := "app1" ]} [] [("Ready", "True")].

Definition app3 : Application :=
  mkApplication "default" "app1" "uid-1" 1 None
                (mkApplicationSpec [widgetGK; gadgetGK; gizmoGK] (Some selector1) false)
                emptyStatus.

Definition cluster3 : Cluster :=
  mkCluster [app3]
            [(widgetGK, widgetGVK); (gadgetGK, gadgetGVK); (gizmoGK, gizmoGVK)]
            [componentA; componentB; componentC] false false false false.

(** The status written for app1 when the listing returns the unready
    Widget b before the ready Widget a. *)
Definition misreportedStatus : ApplicationStatus :=
  mkApplicationStatus 1
    [mkCondition "Ready" ConditionTrue "ComponentsReady" "all components ready"]
    (mkComponentList
       [mkObjectStatus "example.com" "Widget" "a"
                       "/apis/example.com/v1/widgets/a" "Ready";
        mkObjectStatus "example.com" "Widget" "a"
                       "/apis/example.com/v1/widgets/a" "Ready"]).

(** app1 also names a kind the mapper does not know. *)
Definition unknownGK : GroupKind := mkGroupKind "x" "DoesNotExist".

(** A cluster whose listings fail. *)
Definition unlistableCluster : Cluster :=
  mkCluster [app1 emptyStatus] [(widgetGK, widgetGVK)] [widgetA]
            false true false false.

(** A cluster that refuses every update of a resource. *)
Definition readOnlyCluster : Cluster :=
  mkCluster [app1 emptyStatus] [(widgetGK, widgetGVK)] [widgetA]
            false false true false.

(** A world with a history: the store and the trace left by earlier
    work, over the read-only cluster. *)
(** app1 asking for the ownership claim, on a cluster that accepts or
    refuses the updates of resources. *)
Definition owningApp1 : Application :=
  mkApplication "default" "app1" "uid-1" 1 None
                (mkApplicationSpec [widgetGK] (Some selector1) true) emptyStatus.

Definition owningCluster (refuse : bool) : Cluster :=
  mkCluster [owningApp1] [(widgetGK, widgetGVK)] [widgetA; widgetB]
            false false refuse false.

(** A world with a history: the store and the trace left by earlier
    work, over the cluster that refuses the updates. *)
Definition usedWorld : World Cluster :=
  mkWorld [widgetB; widgetB] (owningCluster true)
          [EvGet (req_NamespacedName request1);
           EvUpdateApplication (app1 settledStatus)].

(** The cluster of [owningCluster true] with more in it: the mapper also
    knows Gadget, and a Gadget lives in another namespace. *)
Definition strayGadget : Unstructured :=
  mkUnstructured gadgetGVK "other" "stray" "/apis/example.com/v1/gadgets/stray"
                 {[ "app" := "app1" ]} [] [("Ready", "False")].

Definition busyCluster : Cluster :=
  mkCluster [owningApp1] [(widgetGK, widgetGVK); (gadgetGK, gadgetGVK)]
            [strayGadget; widgetA; widgetB] false false true false.

(** A world over it with a history: the store and the trace left by
    earlier work. *)
Definition busyWorld : World Cluster :=
  mkWorld [widgetB; widgetB] busyCluster
          [EvGet (req_NamespacedName request1);
           EvUpdateApplication (app1 settledStatus)].

(** app1 without a selector. *)
Definition unselectiveApp1 : Application :=
  mkApplication "default" "app1" "uid-1" 1 None
                (mkApplicationSpec [unknownGK; widgetGK] None false) emptyStatus.

Definition unselectiveCluster : Cluster :=
  mkCluster [unselectiveApp1] [(widgetGK, widgetGVK)] [widgetA]
            false false false false.

(** A context that holds no logger. *)
Definition bareCtx : Context := Background.

End Mem.

(** * Properties *)

(** ** Aggregation *)

Lemma aggregateReady_Forall (StatusReady : string) (l : list ObjectStatus) :
  aggregateReady StatusReady l = true <->
  Forall (fun os => os_Status os = StatusReady) l.
Proof.
  induction l as [|os l IH]; simpl.
  - split; [constructor | reflexivity].
  - destruct (String.eqb_spec (os_Status os) StatusReady) as [He|Hne]; simpl.
    + rewrite IH. split.
      * intros Hl. constructor; assumption.
      * intros Hl. inversion Hl; assumption.
    + split; [discriminate |].
      intros Hl. inversion Hl; contradiction.
Qed.

(** C2. [aggregateReady] answers true exactly when every entry carries the
    Ready classification; for the empty list it answers true. *)
Theorem aggregateReady_all_ready (StatusReady : string) :
  (forall l : list ObjectStatus,
      aggregateReady StatusReady l = true <->
      forall os, os ∈ l -> os_Status os = StatusReady)
  /\ aggregateReady StatusReady [] = true.
Proof.
  split; [| reflexivity].
  intros l. rewrite aggregateReady_Forall, Forall_forall. reflexivity.
Qed.

(** ** The ownership claim on one list of owner references *)

Lemma sameOwner_refl (o : OwnerReference) : sameOwner o o = true.
Proof. unfold sameOwner. rewrite !String.eqb_refl. reflexivity. Qed.

Lemma sameOwner_overwrite (o x : OwnerReference) :
  sameOwner o (overwrite o x) = sameOwner o x.
Proof.
  unfold overwrite. destruct (sameOwner o x) eqn:Hs; simpl.
  - destruct (negb _); [apply sameOwner_refl | assumption].
  - assumption.
Qed.

Lemma overwrite_idemp (o x : OwnerReference) :
  overwrite o (overwrite o x) = overwrite o x.
Proof.
  unfold overwrite.
  destruct (sameOwner o x) eqn:Hs;
    destruct (String.eqb (or_UID o) (or_UID x)) eqn:Hu; simpl;
    rewrite ?sameOwner_refl, ?String.eqb_refl, ?Hs, ?Hu; reflexivity.
Qed.

(** The index loop visits the suffix still to scan, leaves the prefix
    alone, and raises the flag when the suffix holds a match. *)
Lemma scanOwnerRefs_suffix (o : OwnerReference) (suf pre : list OwnerReference)
    (found : bool) :
  scanOwnerRefs o (length suf) (length pre) (pre ++ suf) found =
  (pre ++ map (overwrite o) suf, found || existsb (sameOwner o) suf).
Proof.
  revert pre found.
  induction suf as [|x suf IH]; intros pre found; simpl.
  - rewrite orb_false_r. reflexivity.
  - rewrite lookup_app_r, Nat.sub_diag by lia. simpl.
    assert (Hstep : forall y, S (length pre) = length (pre ++ [y]))
      by (intros y; rewrite length_app; simpl; lia).
    unfold overwrite at 1.
    destruct (sameOwner o x) eqn:Hs; simpl.
    + destruct (negb (or_UID o =? or_UID x)%string) eqn:Hu.
      * rewrite insert_app_r_alt, Nat.sub_diag by lia. simpl.
        rewrite (Hstep o), (cons_middle o pre suf), app_assoc, IH.
        rewrite <- app_assoc. simpl. rewrite orb_true_r. reflexivity.
      * rewrite (Hstep x), (cons_middle x pre suf), app_assoc, IH.
        rewrite <- app_assoc. simpl. rewrite orb_true_r. reflexivity.
    + rewrite (Hstep x), (cons_middle x pre suf), app_assoc, IH.
      rewrite <- app_assoc. reflexivity.
Qed.

Lemma map_overwrite_no_match (o : OwnerReference) (l : list OwnerReference) :
  existsb (sameOwner o) l = false -> map (overwrite o) l = l.
Proof.
  induction l as [|x l IH]; simpl; [reflexivity |].
  intros H. apply orb_false_iff in H as [Hx Hl].
  unfold overwrite at 1. rewrite Hx. simpl. rewrite IH by assumption. reflexivity.
Qed.

(** The code of lines 142-157 refines the wording of the spec. *)
Lemma claimOwnerRefs_refines (o : OwnerReference) (l : list OwnerReference) :
  claimOwnerRefs o l = claim_spec o l.
Proof.
  unfold claimOwnerRefs, claim_spec.
  pose proof (scanOwnerRefs_suffix o l [] false) as H. simpl in H. rewrite H.
  destruct (existsb (sameOwner o) l) eqn:He; simpl.
  - reflexivity.
  - rewrite map_overwrite_no_match by assumption. reflexivity.
Qed.

Lemma existsb_sameOwner_map (o : OwnerReference) (l : list OwnerReference) :
  existsb (sameOwner o) (map (overwrite o) l) = existsb (sameOwner o) l.
Proof.
  induction l as [|x l IH]; simpl; [reflexivity |].
  rewrite sameOwner_overwrite, IH. reflexivity.
Qed.

Lemma claim_spec_found (o : OwnerReference) (l : list OwnerReference) :
  existsb (sameOwner o) (claim_spec o l) = true.
Proof.
  unfold claim_spec. destruct (existsb (sameOwner o) l) eqn:He.
  - rewrite existsb_sameOwner_map. assumption.
  - rewrite existsb_app. simpl. rewrite sameOwner_refl, orb_true_r. reflexivity.
Qed.

Lemma claim_spec_idemp (o : OwnerReference) (l : list OwnerReference) :
  claim_spec o (claim_spec o l) = claim_spec o l.
Proof.
  unfold claim_spec at 1. rewrite claim_spec_found.
  unfold claim_spec. destruct (existsb (sameOwner o) l) eqn:He.
  - rewrite map_map.
    apply map_ext. intros x. apply overwrite_idemp.
  - rewrite map_app. simpl. rewrite map_overwrite_no_match by assumption.
    unfold overwrite. rewrite sameOwner_refl, String.eqb_refl. reflexivity.
Qed.

Lemma claimOwnerRefs_idemp (o : OwnerReference) (l : list OwnerReference) :
  claimOwnerRefs o (claimOwnerRefs o l) = claimOwnerRefs o l.
Proof. rewrite !claimOwnerRefs_refines. apply claim_spec_idemp. Qed.

Lemma owned_map_overwrite (o : OwnerReference) (l : list OwnerReference) :
  owned o (map (overwrite o) l) = owned o l.
Proof.
  unfold owned. induction l as [|x l IH]; simpl; [reflexivity |].
  rewrite sameOwner_overwrite. destruct (sameOwner o x); simpl; rewrite IH; reflexivity.
Qed.

Lemma owned_zero (o : OwnerReference) (l : list OwnerReference) :
  existsb (sameOwner o) l = false -> owned o l = 0.
Proof.
  unfold owned. induction l as [|x l IH]; simpl; [reflexivity |].
  intros H. apply orb_false_iff in H as [Hx Hl]. rewrite Hx. auto.
Qed.

Lemma owned_pos (o : OwnerReference) (l : list OwnerReference) :
  existsb (sameOwner o) l = true -> 1 <= owned o l.
Proof.
  unfold owned. induction l as [|x l IH]; simpl; [discriminate |].
  destruct (sameOwner o x); simpl; [lia | auto].
Qed.

Lemma owned_claim_spec (o : OwnerReference) (l : list OwnerReference) :
  owned o (claim_spec o l) = Nat.max 1 (owned o l).
Proof.
  unfold claim_spec. destruct (existsb (sameOwner o) l) eqn:He.
  - rewrite owned_map_overwrite.
    pose proof (owned_pos o l He). lia.
  - rewrite (owned_zero o l He). unfold owned.
    rewrite List.filter_app, length_app. fold (owned o l).
    rewrite (owned_zero o l He). simpl. rewrite sameOwner_refl. reflexivity.
Qed.

(** ** The store *)

Lemma derefs_Some (h : list Unstructured) (ps : list ptr) (vs : list Unstructured) :
  derefs h ps = Some vs <-> pointsTo h ps vs.
Proof. unfold derefs, pointsTo. apply mapM_Some. Qed.

Lemma pointsTo_valid (h : list Unstructured) (ps : list ptr) (vs : list Unstructured) :
  pointsTo h ps vs -> Forall (fun p => p < length h) ps.
Proof.
  intros H. induction H as [|p v ps vs Hp _ IH]; constructor; [| assumption].
  apply lookup_lt_Some in Hp. assumption.
Qed.

Lemma pointsTo_grow (h ext : list Unstructured) (ps : list ptr) (vs : list Unstructured) :
  pointsTo h ps vs -> pointsTo (h ++ ext) ps vs.
Proof.
  intros H. induction H as [|p v ps vs Hp _ IH]; constructor; [| assumption].
  apply lookup_app_l_Some. assumption.
Qed.

Lemma pointsTo_replicate (h : list Unstructured) (n : nat) (p : ptr) (v : Unstructured) :
  h !! p = Some v -> pointsTo h (replicate n p) (replicate n v).
Proof. intros H. induction n; simpl; constructor; assumption. Qed.

Lemma pointsTo_app (h : list Unstructured) (ps qs : list ptr) (vs us : list Unstructured) :
  pointsTo h ps vs -> pointsTo h qs us -> pointsTo h (ps ++ qs) (vs ++ us).
Proof. apply Forall2_app. Qed.

(** ** Running the monad *)

Lemma world_eta {Cluster} (w : World Cluster) :
  mkWorld (heap w) (cluster w) (trace w) = w.
Proof. destruct w. reflexivity. Qed.

Lemma bind_Some {Cluster A B} (m : M Cluster A) (k : A -> M Cluster B)
    (w w' : World Cluster) (a : A) :
  m w = Some (a, w') -> bind m k w = k a w'.
Proof. intros H. unfold bind. rewrite H. reflexivity. Qed.

Lemma bind_None {Cluster A B} (m : M Cluster A) (k : A -> M Cluster B)
    (w : World Cluster) :
  m w = None -> bind m k w = None.
Proof. intros H. unfold bind. rewrite H. reflexivity. Qed.

Lemma bind_inv {Cluster A B} (m : M Cluster A) (k : A -> M Cluster B)
    (w w' : World Cluster) (b : B) :
  bind m k w = Some (b, w') ->
  exists a w1, m w = Some (a, w1) /\ k a w1 = Some (b, w').
Proof.
  unfold bind. destruct (m w) as [[a w1]|]; [| discriminate].
  intros H. exists a, w1. split; [reflexivity | assumption].
Qed.

Lemma getLoggerOrDie_run {Cluster} (ctx : Context) (logger : Logger) (w : World Cluster) :
  Value ctx loggerCtxKey = Some logger -> getLoggerOrDie ctx w = Some (logger, w).
Proof. intros H. unfold getLoggerOrDie. rewrite H. reflexivity. Qed.

Lemma deref_run {Cluster} (p : ptr) (v : Unstructured) (w : World Cluster) :
  heap w !! p = Some v -> deref p w = Some (v, w).
Proof. intros H. unfold deref. rewrite H. reflexivity. Qed.

Lemma assign_run {Cluster} (p : ptr) (v v0 : Unstructured) (w : World Cluster) :
  heap w !! p = Some v0 ->
  assign p v w = Some (tt, mkWorld (<[p:=v]> (heap w)) (cluster w) (trace w)).
Proof. intros H. unfold assign. rewrite H. reflexivity. Qed.

(** ** The trace of a computation *)

Lemma emits_refl {Cluster} (P : Event -> Prop) (w : World Cluster) : emits P w w.
Proof. exists []. rewrite app_nil_r. split; [reflexivity | constructor]. Qed.

Lemma emits_trans {Cluster} (P : Event -> Prop) (w1 w2 w3 : World Cluster) :
  emits P w1 w2 -> emits P w2 w3 -> emits P w1 w3.
Proof.
  intros [e1 [H1 F1]] [e2 [H2 F2]]. exists (e1 ++ e2). split.
  - rewrite H2, H1, app_assoc. reflexivity.
  - apply Forall_app. split; assumption.
Qed.

(** ** Discovery *)

Section Discovery.

Context {Cluster : Type}.
Variable r : ApplicationReconciler Cluster.

(** The inner loop leaves the shared variable holding the last item and
    appends its address once per item. *)
Lemma rangeItems_run (u : ptr) (items : list Unstructured) :
  forall (resources : list ptr) (w : World Cluster),
    u < length (heap w) ->
    rangeItems u items resources w =
    Some (resources ++ replicate (length items) u,
          mkWorld (match last items with
                   | Some v => <[u:=v]> (heap w)
                   | None => heap w
                   end) (cluster w) (trace w)).
Proof.
  induction items as [|item rest IH]; intros resources w Hu.
  - simpl. rewrite app_nil_r, world_eta. reflexivity.
  - destruct (lookup_lt_is_Some_2 _ _ Hu) as [v0 Hv0].
    cbn [rangeItems].
    rewrite (bind_Some _ _ _ _ _ (assign_run u item v0 w Hv0)).
    rewrite IH by (simpl; rewrite length_insert; assumption).
    cbn [heap cluster trace length replicate].
    rewrite <- app_assoc. cbn [app].
    destruct rest as [|item' rest'].
    + reflexivity.
    + rewrite last_cons_cons.
      destruct (last (item' :: rest')) as [v|] eqn:Hl.
      * rewrite list_insert_insert_eq. reflexivity.
      * apply last_None in Hl. discriminate.
Qed.

Lemma appendItems_run (items : list Unstructured) (resources : list ptr)
    (w : World Cluster) :
  appendItems items resources w =
  Some (resources ++ replicate (length items) (length (heap w)),
        mkWorld (heap w ++ [default zeroUnstructured (last items)])
                (cluster w) (trace w)).
Proof.
  unfold appendItems, bind, alloc.
  rewrite rangeItems_run by (simpl; rewrite length_app; simpl; lia).
  simpl. destruct (last items) as [v|]; simpl.
  - rewrite insert_app_r_alt, Nat.sub_diag by lia. reflexivity.
  - reflexivity.
Qed.

End Discovery.

Section DiscoveryLoop.

Context {Cluster : Type}.
Variable r : ApplicationReconciler Cluster.

(** One turn of the loop over [groupKinds], case by case. *)

Lemma fetchLoop_unknown (logger : Logger) (selector : option LabelSelector)
    (namespace : string) (gk : GroupKind) (rest : list GroupKind)
    (resources : list ptr) (w : World Cluster) (e : error) :
  Mapper_RESTMapping r (cluster w) gk = inr e ->
  fetchLoop r logger selector namespace (gk :: rest) resources w =
  fetchLoop r logger selector namespace rest resources
    (mkWorld (heap w) (cluster w) (trace w ++ unknownKindLog logger [gk])).
Proof.
  intros Hm. destruct gk as [g k]. cbn [fetchLoop gk_Group gk_Kind].
  unfold bind, RESTMappingFor, LoggerInfo, emit. cbn [heap cluster trace].
  rewrite Hm. unfold unknownKindLog.
  cbn [flat_map gk_Group gk_Kind heap cluster trace app].
  rewrite <- app_assoc. reflexivity.
Qed.

Lemma fetchLoop_nil_selector (logger : Logger) (namespace : string)
    (gk : GroupKind) (rest : list GroupKind) (resources : list ptr)
    (w : World Cluster) (mapping : RESTMapping) :
  Mapper_RESTMapping r (cluster w) gk = inl mapping ->
  fetchLoop r logger None namespace (gk :: rest) resources w = None.
Proof.
  intros Hm. destruct gk as [g k]. cbn [fetchLoop gk_Group gk_Kind].
  unfold bind, RESTMappingFor. cbn [heap cluster trace].
  rewrite Hm. reflexivity.
Qed.

Lemma fetchLoop_list_error (logger : Logger) (sel : LabelSelector)
    (namespace : string) (gk : GroupKind) (rest : list GroupKind)
    (resources : list ptr) (w : World Cluster) (mapping : RESTMapping) (e : error) :
  Mapper_RESTMapping r (cluster w) gk = inl mapping ->
  Client_List r (cluster w) (rm_GroupVersionKind mapping) namespace (MatchLabels sel)
  = inr e ->
  fetchLoop r logger (Some sel) namespace (gk :: rest) resources w =
  Some ((resources, Some e),
        mkWorld (heap w) (cluster w)
                (trace w ++ [EvRESTMapping gk;
                             EvList (rm_GroupVersionKind mapping) namespace
                                    (MatchLabels sel)])).
Proof.
  intros Hm Hl. destruct gk as [g k]. cbn [fetchLoop gk_Group gk_Kind].
  unfold bind, RESTMappingFor, List. cbn [heap cluster trace].
  rewrite Hm. cbn [heap cluster trace]. rewrite Hl. unfold ret.
  cbn [heap cluster trace app].
  rewrite <- app_assoc. reflexivity.
Qed.

Lemma fetchLoop_listed (logger : Logger) (sel : LabelSelector)
    (namespace : string) (gk : GroupKind) (rest : list GroupKind)
    (resources : list ptr) (w : World Cluster) (mapping : RESTMapping)
    (items : list Unstructured) :
  Mapper_RESTMapping r (cluster w) gk = inl mapping ->
  Client_List r (cluster w) (rm_GroupVersionKind mapping) namespace (MatchLabels sel)
  = inl items ->
  fetchLoop r logger (Some sel) namespace (gk :: rest) resources w =
  fetchLoop r logger (Some sel) namespace rest
    (resources ++ replicate (length items) (length (heap w)))
    (mkWorld (heap w ++ [default zeroUnstructured (last items)]) (cluster w)
             (trace w ++ [EvRESTMapping gk;
                          EvList (rm_GroupVersionKind mapping) namespace
                                 (MatchLabels sel)])).
Proof.
  intros Hm Hl. destruct gk as [g k]. cbn [fetchLoop gk_Group gk_Kind].
  unfold bind at 1. unfold RESTMappingFor. cbn [heap cluster trace].
  rewrite Hm. cbn [heap cluster trace].
  unfold bind at 1. unfold List. cbn [heap cluster trace].
  rewrite Hl. unfold bind at 1. rewrite appendItems_run.
  cbn [heap cluster trace app].
  rewrite <- app_assoc. reflexivity.
Qed.

(** The loop over [groupKinds] computes [discovered] on the values behind
    its pointers; it reads the cluster without changing it, only grows
    the store, and issues no update. *)
Lemma fetchLoop_values (logger : Logger) (selector : option LabelSelector)
    (namespace : string) (groupKinds : list GroupKind) :
  forall (resources : list ptr) (vals : list Unstructured) (w : World Cluster),
    pointsTo (heap w) resources vals ->
    match discovered r (cluster w) selector namespace groupKinds vals with
    | None => fetchLoop r logger selector namespace groupKinds resources w = None
    | Some (vals', err) =>
        exists ptrs' w',
          fetchLoop r logger selector namespace groupKinds resources w
          = Some ((ptrs', err), w')
          /\ pointsTo (heap w') ptrs' vals'
          /\ cluster w' = cluster w
          /\ emits (fun ev => isWrite ev = false) w w'
    end.
Proof.
  induction groupKinds as [|gk rest IH]; intros resources vals w Hp.
  - simpl. exists resources, w. repeat split; try assumption. apply emits_refl.
  - cbn [discovered].
    destruct (Mapper_RESTMapping r (cluster w) gk) as [mapping|e] eqn:Hm.
    + destruct selector as [sel|].
      2:{ apply (fetchLoop_nil_selector _ _ _ _ _ _ mapping). assumption. }
      destruct (Client_List r (cluster w) (rm_GroupVersionKind mapping) namespace
                            (MatchLabels sel)) as [items|err] eqn:Hl.
      * rewrite (fetchLoop_listed _ _ _ _ _ _ _ mapping items Hm Hl).
        match goal with |- context [fetchLoop _ _ _ _ _ ?ps ?wn] =>
          set (ptrs3 := ps); set (w3 := wn) end.
        assert (Hp3 : pointsTo (heap w3) ptrs3 (vals ++ aliased items)).
        { apply pointsTo_app.
          - apply pointsTo_grow. assumption.
          - apply pointsTo_replicate. simpl.
            rewrite lookup_app_r, Nat.sub_diag by lia. reflexivity. }
        specialize (IH _ _ w3 Hp3). cbn [cluster w3] in IH.
        destruct (discovered r (cluster w) (Some sel) namespace rest
                             (vals ++ aliased items)) as [[vals' err]|].
        -- destruct IH as (ptrs' & w' & Hrun & Hpt & Hc & He).
           exists ptrs', w'. split; [exact Hrun |].
           split; [assumption |]. split; [assumption |].
           apply (emits_trans _ w w3 w'); [| assumption].
           eexists. split; [reflexivity |]. repeat constructor.
        -- exact IH.
      * rewrite (fetchLoop_list_error _ _ _ _ _ _ _ mapping err Hm Hl).
        eexists _, _. split; [reflexivity |].
        split; [assumption |]. split; [reflexivity |].
        eexists. split; [reflexivity |]. repeat constructor.
    + rewrite (fetchLoop_unknown _ _ _ _ _ _ _ e Hm).
      match goal with |- context [fetchLoop _ _ _ _ _ _ ?wn] => set (w2 := wn) end.
      specialize (IH resources vals w2 Hp). cbn [cluster w2] in IH.
      destruct (discovered r (cluster w) selector namespace rest vals)
        as [[vals' err]|].
      * destruct IH as (ptrs' & w' & Hrun & Hpt & Hc & He).
        exists ptrs', w'. split; [exact Hrun |].
        split; [assumption |]. split; [assumption |].
        apply (emits_trans _ w w2 w'); [| assumption].
        eexists. split; [reflexivity |]. destruct gk. repeat constructor.
      * exact IH.
Qed.

End DiscoveryLoop.

(** ** The ownership step on the store *)

Lemma claimResource_idemp (o : OwnerReference) (obj : Unstructured) :
  claimResource o (claimResource o obj) = claimResource o obj.
Proof.
  unfold claimResource, SetOwnerReferences, GetOwnerReferences. simpl.
  rewrite claimOwnerRefs_idemp. reflexivity.
Qed.

Section Ownership.

Context {Cluster : Type}.
Variable r : ApplicationReconciler Cluster.

Lemma setOwnerRefLoop_step (logger : Logger) (o : OwnerReference) (p : ptr)
    (rest : list ptr) (w : World Cluster) (obj : Unstructured) :
  heap w !! p = Some obj ->
  setOwnerRefLoop r logger o (p :: rest) w =
  setOwnerRefLoop r logger o rest
    (mkWorld (<[p:=claimResource o obj]> (heap w))
             (fst (Client_Update r (cluster w) (claimResource o obj)))
             (trace w ++ claimEvents logger (claimResource o obj)
                           (snd (Client_Update r (cluster w) (claimResource o obj))))).
Proof.
  intros Hp. cbn [setOwnerRefLoop].
  rewrite (bind_Some _ _ _ _ _ (deref_run p obj w Hp)).
  fold (claimResource o obj).
  rewrite (bind_Some _ _ _ _ _ (assign_run p (claimResource o obj) obj w Hp)).
  assert (Hp' : <[p:=claimResource o obj]> (heap w) !! p = Some (claimResource o obj)).
  { apply list_lookup_insert_eq. apply lookup_lt_Some in Hp. assumption. }
  unfold bind at 1. unfold Update at 1. cbn [heap cluster trace].
  rewrite Hp'.
  destruct (Client_Update r (cluster w) (claimResource o obj)) as [c' [e|]];
    cbn [fst snd claimEvents].
  - unfold bind at 1. unfold bind at 1. unfold deref at 1. cbn [heap cluster trace].
    rewrite Hp'. unfold LoggerError, emit. cbn [heap cluster trace].
    rewrite <- app_assoc. reflexivity.
  - unfold bind at 1. unfold ret at 1. reflexivity.
Qed.

(** On valid pointers the loop runs to its end; every resource it was
    handed carries the claimed owner references afterwards, whether or
    not its update succeeded and however often its address occurs; the
    rest of the store is untouched, and no Application is written. *)
Lemma setOwnerRefLoop_run (logger : Logger) (o : OwnerReference)
    (resources : list ptr) :
  forall w : World Cluster,
    Forall (fun p => p < length (heap w)) resources ->
    exists w',
      setOwnerRefLoop r logger o resources w = Some (tt, w')
      /\ length (heap w') = length (heap w)
      /\ (forall q, heap w' !! q =
                    if decide (q ∈ resources)
                    then claimResource o <$> heap w !! q
                    else heap w !! q)
      /\ emits (fun ev => isApplicationWrite ev = false) w w'.
Proof.
  induction resources as [|p rest IH]; intros w Hv.
  - exists w. split; [reflexivity |]. split; [reflexivity |].
    split; [| apply emits_refl].
    intros q. case_decide as Hin; [inversion Hin | reflexivity].
  - inversion Hv as [|p' rest' Hp Hrest]; subst.
    destruct (lookup_lt_is_Some_2 _ _ Hp) as [obj Hobj].
    rewrite (setOwnerRefLoop_step logger o p rest w obj Hobj).
    match goal with |- context [setOwnerRefLoop _ _ _ _ ?wn] => set (w1 := wn) end.
    assert (Hv1 : Forall (fun p => p < length (heap w1)) rest).
    { simpl. rewrite length_insert. assumption. }
    destruct (IH w1 Hv1) as (w' & Hrun & Hlen & Hheap & Hem).
    exists w'. split; [exact Hrun |].
    split; [rewrite Hlen; simpl; apply length_insert |].
    split.
    + intros q. rewrite Hheap. cbn [heap w1].
      destruct (decide (q = p)) as [->|Hne].
      * rewrite list_lookup_insert_eq by assumption. rewrite Hobj.
        repeat case_decide; simpl; rewrite ?claimResource_idemp; try reflexivity.
        all: exfalso; match goal with H : _ ∉ _ :: _ |- _ => apply H; left end.
      * rewrite list_lookup_insert_ne by congruence.
        repeat case_decide; try reflexivity.
        -- exfalso. match goal with H : _ ∉ _ :: _ |- _ => apply H end.
           right. assumption.
        -- exfalso.
           match goal with H : _ ∈ _ :: _ |- _ =>
             apply elem_of_cons in H as [?|?]; contradiction end.
    + apply (emits_trans _ w w1 w'); [| assumption].
      eexists. split; [reflexivity |].
      unfold claimEvents.
      destruct (snd (Client_Update r (cluster w) (claimResource o obj)));
        repeat constructor.
Qed.

(** The values behind the pointers after the ownership step. *)
Lemma setOwnerRefLoop_values (logger : Logger) (o : OwnerReference)
    (resources : list ptr) (vals : list Unstructured) (w : World Cluster) :
  pointsTo (heap w) resources vals ->
  exists w',
    setOwnerRefLoop r logger o resources w = Some (tt, w')
    /\ pointsTo (heap w') resources (map (claimResource o) vals)
    /\ emits (fun ev => isApplicationWrite ev = false) w w'.
Proof.
  intros Hp.
  destruct (setOwnerRefLoop_run logger o resources w (pointsTo_valid _ _ _ Hp))
    as (w' & Hrun & _ & Hheap & Hem).
  exists w'. split; [exact Hrun |]. split; [| exact Hem].
  unfold pointsTo. apply Forall2_fmap_r.
  apply Forall2_same_length_lookup_2; [eapply Forall2_length; exact Hp |].
  intros i q v Hq Hv. rewrite Hheap.
  case_decide as Hn.
  - pose proof (Forall2_lookup_lr _ _ _ _ _ _ Hp Hq Hv) as Hqv.
    cbv beta in Hqv. simpl. rewrite Hqv. reflexivity.
  - exfalso. apply Hn. apply list_elem_of_lookup. exists i. assumption.
Qed.

End Ownership.

(** ** Evaluation *)

Section Evaluation.

Context {Cluster : Type}.
Variable status : Unstructured -> string + error.

(** The evaluation loop keeps the entries of the resources whose status
    can be computed, in order, logs the others, and changes neither the
    store nor the cluster. *)
Lemma objectStatusesLoop_run (logger : Logger) (resources : list ptr) :
  forall (vals : list Unstructured) (acc : list ObjectStatus) (w : World Cluster),
    pointsTo (heap w) resources vals ->
    objectStatusesLoop status logger resources acc w =
    Some (acc ++ evaluated status vals,
          mkWorld (heap w) (cluster w)
                  (trace w ++ evaluationLog status logger vals)).
Proof.
  induction resources as [|p rest IH]; intros vals acc w Hp.
  - inversion Hp; subst. simpl. rewrite !app_nil_r, world_eta. reflexivity.
  - inversion Hp as [|p' v rest' vals' Hv Hrest]; subst.
    cbn [objectStatusesLoop].
    rewrite (bind_Some _ _ _ _ _ (deref_run p v w Hv)).
    unfold evaluated, evaluationLog. cbn [omap flat_map list_omap].
    unfold evaluate at 1.
    destruct (status v) as [s|err].
    + rewrite (IH vals' _ w Hrest).
      rewrite <- app_assoc. reflexivity.
    + unfold bind, LoggerError, emit.
      erewrite IH; [| exact Hrest]. cbn [heap cluster trace].
      rewrite <- app_assoc. reflexivity.
Qed.

End Evaluation.

(** ** Discovery on a concrete cluster *)

(** C1. On a cluster that lists two Widgets, a then b, for the one
    resolvable pair, discovery succeeds and returns two pointers, but both
    refer to b: every address appended by the inner loop is the address of
    the one range variable.  The entry of a is replaced by that of b,
    where the spec asks for a followed by b. *)
Theorem fetchComponentListResources_repeats_last_item :
  let c := Mem.clusterWith Mem.emptyStatus [Mem.widgetA; Mem.widgetB] in
  discover_spec Mem.reconciler c [Mem.widgetGK] (MatchLabels Mem.selector1) "default"
  = [Mem.widgetA; Mem.widgetB]
  /\ exists ptrs w',
      fetchComponentListResources Mem.reconciler Mem.ctx1 [Mem.widgetGK]
        (Some Mem.selector1) "default" (Mem.start c) = Some ((ptrs, None), w')
      /\ derefs (heap w') ptrs = Some [Mem.widgetB; Mem.widgetB].
Proof.
  split; [vm_compute; reflexivity |].
  eexists _, _. split; vm_compute; reflexivity.
Qed.

(** Listings of at most one item are returned as they are. *)
Lemma aliased_short (items : list Unstructured) :
  length items <= 1 -> aliased items = items.
Proof.
  destruct items as [|a [|b items]]; simpl; intros H; [reflexivity | reflexivity | lia].
Qed.

Lemma aliased_length (items : list Unstructured) :
  length (aliased items) = length items.
Proof. unfold aliased. apply length_replicate. Qed.

(** What this does to a pass: with the unready Widget b listed before the
    ready Widget a, both entries of the component list are those of a, and
    the Application is written as ready. *)
Example Reconcile_reports_last_item_only :
  exists w',
    Mem.run (Mem.clusterWith Mem.emptyStatus [Mem.widgetB; Mem.widgetA]) Mem.request1
    = Some ((mkResult false, None), w')
    /\ List.filter isWrite (trace w')
       = [EvUpdateApplication (Mem.app1 Mem.misreportedStatus)].
Proof. eexists. split; vm_compute; reflexivity. Qed.

(** ** The ownership claim *)

Section OwnershipClaim.

Context {Cluster : Type}.
Variable r : ApplicationReconciler Cluster.

Lemma setOwnerRefForResources_run (ctx : Context) (logger : Logger)
    (o : OwnerReference) (resources : list ptr) (w : World Cluster) :
  Value ctx loggerCtxKey = Some logger ->
  Forall (fun p => p < length (heap w)) resources ->
  exists w',
    setOwnerRefForResources r ctx o resources w = Some (None, w')
    /\ length (heap w') = length (heap w)
    /\ (forall q, heap w' !! q =
                  if decide (q ∈ resources)
                  then claimResource o <$> heap w !! q
                  else heap w !! q)
    /\ emits (fun ev => isApplicationWrite ev = false) w w'.
Proof.
  intros Hlog Hv.
  destruct (setOwnerRefLoop_run r logger o resources w Hv)
    as (w' & Hrun & Hlen & Hheap & Hem).
  exists w'. split; [| auto].
  unfold setOwnerRefForResources.
  rewrite (bind_Some _ _ _ _ _ (getLoggerOrDie_run ctx logger w Hlog)).
  rewrite (bind_Some _ _ _ _ _ Hrun). reflexivity.
Qed.

End OwnershipClaim.

(** C3. The ownership reconciler, run on valid pointers, leaves on every
    resource it was handed the owner references the spec describes: the
    entries with the owner's kind, apiVersion and name whose UID differs
    are overwritten in place, and the owner is appended when there is no
    such entry.  The number of entries with the owner's identity is
    unchanged, or one when there was none.  A second run with the same
    owner changes no resource. *)
Theorem setOwnerRefForResources_claims_once {Cluster : Type}
    (r : ApplicationReconciler Cluster) (ctx : Context) (logger : Logger)
    (o : OwnerReference) (resources : list ptr) (w : World Cluster) :
  Value ctx loggerCtxKey = Some logger ->
  Forall (fun p => p < length (heap w)) resources ->
  exists w1 w2,
    setOwnerRefForResources r ctx o resources w = Some (None, w1)
    /\ setOwnerRefForResources r ctx o resources w1 = Some (None, w2)
    /\ (forall p obj,
          p ∈ resources -> heap w !! p = Some obj ->
          heap w1 !! p
          = Some (SetOwnerReferences obj (claim_spec o (GetOwnerReferences obj)))
          /\ owned o (claim_spec o (GetOwnerReferences obj))
             = Nat.max 1 (owned o (GetOwnerReferences obj)))
    /\ (forall p, p ∉ resources -> heap w1 !! p = heap w !! p)
    /\ heap w2 = heap w1.
Proof.
  intros Hlog Hv.
  destruct (setOwnerRefForResources_run r ctx logger o resources w Hlog Hv)
    as (w1 & Hrun1 & Hlen1 & Hheap1 & _).
  assert (Hv1 : Forall (fun p => p < length (heap w1)) resources)
    by (rewrite Hlen1; assumption).
  destruct (setOwnerRefForResources_run r ctx logger o resources w1 Hlog Hv1)
    as (w2 & Hrun2 & _ & Hheap2 & _).
  exists w1, w2. split; [exact Hrun1 |]. split; [exact Hrun2 |].
  split; [| split].
  - intros p obj Hin Hobj. split; [| apply owned_claim_spec].
    rewrite Hheap1, Hobj. case_decide; [| contradiction].
    simpl. unfold claimResource. rewrite claimOwnerRefs_refines. reflexivity.
  - intros p Hnin. rewrite Hheap1. case_decide; [contradiction | reflexivity].
  - apply list_eq. intros q. rewrite Hheap2, Hheap1.
    case_decide; [| reflexivity].
    destruct (heap w !! q); simpl; [rewrite claimResource_idemp |]; reflexivity.
Qed.

(** The claim at work: a resource that still carries the reference of an
    earlier incarnation of app1 and occurs twice in the slice. *)
Lemma setOwnerRefForResources_claims_once_witness :
  let w := mkWorld [Mem.withOwners Mem.widgetA [Mem.otherRef; Mem.staleRef]]
                   Mem.emptyCluster [] in
  exists w1 w2,
    setOwnerRefForResources Mem.reconciler Mem.ctx1 Mem.ownerRef1 [0; 0] w
    = Some (None, w1)
    /\ setOwnerRefForResources Mem.reconciler Mem.ctx1 Mem.ownerRef1 [0; 0] w1
       = Some (None, w2)
    /\ (forall p obj,
          p ∈ [0; 0] -> heap w !! p = Some obj ->
          heap w1 !! p
          = Some (SetOwnerReferences obj
                    (claim_spec Mem.ownerRef1 (GetOwnerReferences obj)))
          /\ owned Mem.ownerRef1 (claim_spec Mem.ownerRef1 (GetOwnerReferences obj))
             = Nat.max 1 (owned Mem.ownerRef1 (GetOwnerReferences obj)))
    /\ (forall p, p ∉ [0; 0] -> heap w1 !! p = heap w !! p)
    /\ heap w2 = heap w1.
Proof.
  apply (setOwnerRefForResources_claims_once Mem.reconciler Mem.ctx1 Mem.logger1).
  - reflexivity.
  - simpl. repeat constructor.
Defined.

(** ** Fetching the Application *)

(** C4. When the Application is not found the pass ends in success; when
    the fetch fails otherwise it ends in a requeue with the error; when
    the Application is marked for deletion it ends in success.  In the
    three cases the world after the pass is the world after the fetch: no
    discovery, no ownership claim, no evaluation, no write. *)
Theorem Reconcile_ends_after_fetch {Cluster : Type}
    (r : ApplicationReconciler Cluster) (status : Unstructured -> string + error)
    (StatusReady : string) (gv : GroupVersion) (req : Request) (w : World Cluster) :
  (forall e,
      Client_Get r (cluster w) (req_NamespacedName req) = inr e ->
      IsNotFound e = true ->
      Reconcile r status StatusReady gv req w
      = Some ((mkResult false, None), afterGet req w))
  /\ (forall e,
        Client_Get r (cluster w) (req_NamespacedName req) = inr e ->
        IsNotFound e = false ->
        Reconcile r status StatusReady gv req w
        = Some ((mkResult true, Some e), afterGet req w))
  /\ (forall app t,
        Client_Get r (cluster w) (req_NamespacedName req) = inl app ->
        app_DeletionTimestamp app = Some t ->
        Reconcile r status StatusReady gv req w
        = Some ((mkResult false, None), afterGet req w)).
Proof.
  unfold Reconcile, composeStatus, afterGet.
  repeat split.
  - intros e Hget Hnf. unfold bind, Get. rewrite Hget, Hnf. reflexivity.
  - intros e Hget Hnf. unfold bind, Get. rewrite Hget, Hnf. reflexivity.
  - intros app t Hget Hdel. unfold bind, Get. rewrite Hget, Hdel. reflexivity.
Qed.

(** The three endings on concrete clusters: no Application, a failing
    read, an Application marked for deletion. *)
Lemma Reconcile_ends_after_fetch_witness :
  Mem.run Mem.emptyCluster Mem.request1
  = Some ((mkResult false, None), afterGet Mem.request1 (Mem.start Mem.emptyCluster))
  /\ Mem.run Mem.brokenCluster Mem.request1
     = Some ((mkResult true, Some (OtherError "get failed")),
             afterGet Mem.request1 (Mem.start Mem.brokenCluster))
  /\ Mem.run Mem.deletingCluster Mem.request1
     = Some ((mkResult false, None),
             afterGet Mem.request1 (Mem.start Mem.deletingCluster)).
Proof.
  split; [| split].
  - apply (proj1 (Reconcile_ends_after_fetch Mem.reconciler Mem.statusOf "Ready"
                    Mem.groupVersion Mem.request1 (Mem.start Mem.emptyCluster))
             (NotFoundError "application not found")); reflexivity.
  - apply (proj1 (proj2 (Reconcile_ends_after_fetch Mem.reconciler Mem.statusOf "Ready"
                           Mem.groupVersion Mem.request1 (Mem.start Mem.brokenCluster)))
             (OtherError "get failed")); reflexivity.
  - apply (proj2 (proj2 (Reconcile_ends_after_fetch Mem.reconciler Mem.statusOf "Ready"
                           Mem.groupVersion Mem.request1 (Mem.start Mem.deletingCluster)))
             Mem.deletedApp1 1700000000%Z); reflexivity.
Defined.

(** ** The pass up to the candidate status *)

Lemma emits_weaken {Cluster} (P Q : Event -> Prop) (w w' : World Cluster) :
  (forall ev, P ev -> Q ev) -> emits P w w' -> emits Q w w'.
Proof.
  intros HPQ (evs & Ht & HF). exists evs. split; [assumption |].
  eapply Forall_impl; eauto.
Qed.

Lemma not_write_not_application_write (ev : Event) :
  isWrite ev = false -> isApplicationWrite ev = false.
Proof. destruct ev; simpl; congruence. Qed.

Section Pass.

Context {Cluster : Type}.
Variable r : ApplicationReconciler Cluster.
Variable status : Unstructured -> string + error.
Variable StatusReady : string.
Variable gv : GroupVersion.

Lemma requestContext_logger (req : Request) :
  Value (requestContext r req) loggerCtxKey = Some (requestLogger r req).
Proof. reflexivity. Qed.

Lemma fetchComponentListResources_values (ctx : Context) (logger : Logger)
    (groupKinds : list GroupKind) (selector : option LabelSelector)
    (namespace : string) (w : World Cluster) :
  Value ctx loggerCtxKey = Some logger ->
  match discovered r (cluster w) selector namespace groupKinds [] with
  | None => fetchComponentListResources r ctx groupKinds selector namespace w = None
  | Some (vals, err) =>
      exists ptrs w',
        fetchComponentListResources r ctx groupKinds selector namespace w
        = Some ((ptrs, err), w')
        /\ pointsTo (heap w') ptrs vals
        /\ cluster w' = cluster w
        /\ emits (fun ev => isWrite ev = false) w w'
  end.
Proof.
  intros Hlog. unfold fetchComponentListResources.
  rewrite (bind_Some _ _ _ _ _ (getLoggerOrDie_run ctx logger w Hlog)).
  apply fetchLoop_values. constructor.
Qed.

Lemma claimOwnership_run (ctx : Context) (logger : Logger) (app : Application)
    (resources : list ptr) (vals : list Unstructured) (w : World Cluster) :
  Value ctx loggerCtxKey = Some logger ->
  pointsTo (heap w) resources vals ->
  exists w',
    claimOwnership r gv ctx app resources w = Some (None, w')
    /\ pointsTo (heap w') resources (claimedValues gv app vals)
    /\ emits (fun ev => isApplicationWrite ev = false) w w'.
Proof.
  intros Hlog Hp. unfold claimOwnership, claimedValues.
  destruct (AddOwnerRef (app_Spec app)).
  - unfold bind at 1. unfold setController, NewControllerRef, WithKind, ret.
    cbn [or_Controller or_APIVersion or_Kind or_Name or_UID or_BlockOwnerDeletion
         gvk_Group gvk_Version gvk_Kind].
    replace (mkGroupVersion (gv_Group gv) (gv_Version gv)) with gv
      by (destruct gv; reflexivity).
    fold (applicationOwnerRef gv app).
    unfold setOwnerRefForResources.
    rewrite (bind_Some _ _ _ _ _ (getLoggerOrDie_run ctx logger w Hlog)).
    destruct (setOwnerRefLoop_values r logger (applicationOwnerRef gv app)
                resources vals w Hp) as (w' & Hrun & Hpt & Hem).
    rewrite (bind_Some _ _ _ _ _ Hrun).
    exists w'. split; [reflexivity |]. split; assumption.
  - exists w. split; [reflexivity |]. split; [assumption | apply emits_refl].
Qed.

Lemma objectStatuses_run (ctx : Context) (logger : Logger)
    (resources : list ptr) (vals : list Unstructured) (w : World Cluster) :
  Value ctx loggerCtxKey = Some logger ->
  pointsTo (heap w) resources vals ->
  objectStatuses status ctx resources w =
  Some (evaluated status vals,
        mkWorld (heap w) (cluster w) (trace w ++ evaluationLog status logger vals)).
Proof.
  intros Hlog Hp. unfold objectStatuses.
  rewrite (bind_Some _ _ _ _ _ (getLoggerOrDie_run ctx logger w Hlog)).
  rewrite (objectStatusesLoop_run status logger resources vals [] w Hp).
  reflexivity.
Qed.

Lemma evaluationLog_no_write (logger : Logger) (vals : list Unstructured) :
  Forall (fun ev => isWrite ev = false) (evaluationLog status logger vals).
Proof.
  unfold evaluationLog. induction vals as [|v vals IH]; simpl; [constructor |].
  destruct (status v); simpl; [assumption | constructor; [reflexivity | assumption]].
Qed.

(** A pass that fetched a live Application: it panics, stops at the first
    list failure, or composes the candidate status from the values that
    discovery returned. *)
Lemma composeStatus_run (req : Request) (app : Application) (w : World Cluster) :
  Client_Get r (cluster w) (req_NamespacedName req) = inl app ->
  app_DeletionTimestamp app = None ->
  match discovered r (cluster w) (Selector (app_Spec app)) (app_Namespace app)
                   (ComponentGroupKinds (app_Spec app)) [] with
  | None => composeStatus r status StatusReady gv req w = None
  | Some (vals, Some e) =>
      exists w',
        composeStatus r status StatusReady gv req w
        = Some (inl (mkResult true, Some e), w')
        /\ cluster w' = cluster w
        /\ emits (fun ev => isWrite ev = false) w w'
  | Some (vals, None) =>
      exists w',
        composeStatus r status StatusReady gv req w
        = Some (inr (app, candidateStatus status StatusReady gv app vals), w')
        /\ emits (fun ev => isApplicationWrite ev = false) w w'
  end.
Proof.
  intros Hget Hdel.
  assert (Hstep : forall (B : Type) (k : Application + error -> M Cluster B),
             bind (Get r (req_NamespacedName req)) k w
             = k (inl app) (afterGet req w)).
  { intros B k. unfold bind, Get. rewrite Hget. reflexivity. }
  assert (E0 : emits (fun ev => isWrite ev = false) w (afterGet req w)).
  { eexists. split; [reflexivity |]. repeat constructor. }
  pose proof (fetchComponentListResources_values (requestContext r req)
                (requestLogger r req) (ComponentGroupKinds (app_Spec app))
                (Selector (app_Spec app)) (app_Namespace app) (afterGet req w)
                (requestContext_logger req)) as Hf.
  cbn [afterGet cluster] in Hf. fold (afterGet req w) in Hf.
  destruct (discovered r (cluster w) (Selector (app_Spec app)) (app_Namespace app)
                       (ComponentGroupKinds (app_Spec app)) [])
    as [[vals [e|]]|];
    unfold composeStatus; cbv zeta; rewrite Hstep, Hdel.
  - destruct Hf as (ptrs & w1 & Hrun & _ & Hc & Hem).
    rewrite (bind_Some _ _ _ _ _ Hrun).
    exists w1. split; [reflexivity |]. split; [assumption |].
    apply (emits_trans _ w (afterGet req w) w1); assumption.
  - destruct Hf as (ptrs & w1 & Hrun & Hpt & _ & Hem).
    rewrite (bind_Some _ _ _ _ _ Hrun).
    destruct (claimOwnership_run (requestContext r req) (requestLogger r req)
                app ptrs vals w1 (requestContext_logger req) Hpt)
      as (w2 & Hclaim & Hpt2 & Hem2).
    rewrite (bind_Some _ _ _ _ _ Hclaim).
    rewrite (bind_Some _ _ _ _ _
               (objectStatuses_run (requestContext r req) (requestLogger r req)
                  ptrs _ w2 (requestContext_logger req) Hpt2)).
    eexists. split; [reflexivity |].
    apply (emits_trans _ w w1).
    { apply (emits_weaken _ _ _ _ not_write_not_application_write).
      apply (emits_trans _ w (afterGet req w) w1); assumption. }
    apply (emits_trans _ w1 w2 _ Hem2).
    eexists. split; [reflexivity |].
    eapply Forall_impl; [apply evaluationLog_no_write |].
    apply not_write_not_application_write.
  - rewrite (bind_None _ _ _ Hf). reflexivity.
Qed.

End Pass.

(** ** The write-back *)

Lemma DeepEqual_pointer_value (new stored : ApplicationStatus) :
  DeepEqual (StatusPointer new) (StatusValue stored) = false.
Proof. reflexivity. Qed.

(** The comparison of line 102 is between a pointer and a struct, so it
    never holds: every pass that reaches it issues the update. *)
Lemma writeBack_always_updates {Cluster : Type} (r : ApplicationReconciler Cluster)
    (app : Application) (new : ApplicationStatus) (w : World Cluster) :
  writeBack r app new w =
  let '(c', err) := Client_UpdateApplication r (cluster w) (withStatus app new) in
  Some (match err with
        | Some e => (mkResult true, Some e)
        | None => (mkResult false, None)
        end,
        mkWorld (heap w) c' (trace w ++ [EvUpdateApplication (withStatus app new)])).
Proof.
  unfold writeBack. rewrite DeepEqual_pointer_value.
  unfold bind, UpdateApplication.
  destruct (Client_UpdateApplication r (cluster w) (withStatus app new)) as [c' [e|]];
    reflexivity.
Qed.

(** C5. app1 selects the single Widget a, which is ready, and its stored
    status already is the status a pass composes.  The pass composes that
    same status and nevertheless updates the Application with it: the
    comparison of line 102 does not hold, and the pass performs a write
    where the spec asks for none. *)
Theorem Reconcile_rewrites_unchanged_status :
  exists w1 w',
    composeStatus Mem.reconciler Mem.statusOf "Ready" Mem.groupVersion Mem.request1
      (Mem.start Mem.settledCluster)
    = Some (inr (Mem.app1 Mem.settledStatus, Mem.settledStatus), w1)
    /\ Mem.run Mem.settledCluster Mem.request1 = Some ((mkResult false, None), w')
    /\ List.filter isWrite (trace w')
       = [EvUpdateApplication (Mem.app1 Mem.settledStatus)].
Proof.
  eexists _, _. split; [vm_compute; reflexivity |].
  split; vm_compute; reflexivity.
Qed.

(** ** Evaluation failures *)

Lemma newApplicationStatus_objects (StatusReady : string) (app : Application)
    (objs : list ObjectStatus) :
  Objects (st_ComponentList (newApplicationStatus StatusReady app objs)) = objs.
Proof.
  unfold newApplicationStatus. destruct (aggregateReady StatusReady objs); reflexivity.
Qed.

Lemma elem_of_evaluated (status : Unstructured -> string + error)
    (vals : list Unstructured) (os : ObjectStatus) :
  os ∈ evaluated status vals <->
  exists obj s, obj ∈ vals /\ status obj = inl s
                /\ os = withObjectStatus (newObjectStatus obj) s.
Proof.
  unfold evaluated. rewrite list_elem_of_omap. unfold evaluate. split.
  - intros (obj & Hin & Hev). destruct (status obj) as [s|e] eqn:Hs; [| discriminate].
    exists obj, s. injection Hev as <-. auto.
  - intros (obj & s & Hin & Hs & ->). exists obj. rewrite Hs. auto.
Qed.

(** C6. [objectStatuses] returns the entries of the resources whose
    status can be computed, in the order of the resources, and only logs
    the others; a pass that discovered its resources goes on to the
    write-back with that list as its component list, whatever evaluation
    failed. *)
Theorem objectStatuses_keeps_successes {Cluster : Type}
    (r : ApplicationReconciler Cluster) (status : Unstructured -> string + error)
    (StatusReady : string) (gv : GroupVersion)
    (ctx : Context) (logger : Logger) (resources : list ptr)
    (vals : list Unstructured) (w : World Cluster)
    (req : Request) (app : Application) (found : list Unstructured)
    (w0 : World Cluster) :
  Value ctx loggerCtxKey = Some logger ->
  derefs (heap w) resources = Some vals ->
  Client_Get r (cluster w0) (req_NamespacedName req) = inl app ->
  app_DeletionTimestamp app = None ->
  discovered r (cluster w0) (Selector (app_Spec app)) (app_Namespace app)
             (ComponentGroupKinds (app_Spec app)) [] = Some (found, None) ->
  objectStatuses status ctx resources w
  = Some (evaluated status vals,
          mkWorld (heap w) (cluster w) (trace w ++ evaluationLog status logger vals))
  /\ (forall os,
        os ∈ evaluated status vals <->
        exists obj s, obj ∈ vals /\ status obj = inl s
                      /\ os = withObjectStatus (newObjectStatus obj) s)
  /\ exists new w3,
      composeStatus r status StatusReady gv req w0 = Some (inr (app, new), w3)
      /\ Objects (st_ComponentList new) = evaluated status (claimedValues gv app found)
      /\ Reconcile r status StatusReady gv req w0 = writeBack r app new w3.
Proof.
  intros Hlog Hd Hget Hdel Hdisc.
  split; [| split].
  - apply objectStatuses_run; [assumption |]. apply derefs_Some. assumption.
  - apply elem_of_evaluated.
  - pose proof (composeStatus_run r status StatusReady gv req app w0 Hget Hdel) as Hc.
    rewrite Hdisc in Hc. destruct Hc as (w3 & Hrun & _).
    eexists _, w3. split; [exact Hrun |].
    split; [apply newApplicationStatus_objects |].
    unfold Reconcile. rewrite (bind_Some _ _ _ _ _ Hrun). reflexivity.
Qed.

(** Resources A, B and C where the status of B cannot be computed: the
    list holds the entries of A and C; and the pass over the cluster that
    serves them composes a status with these two entries. *)
Lemma objectStatuses_keeps_successes_witness :
  let w := mkWorld [Mem.componentA; Mem.componentB; Mem.componentC] Mem.cluster3 [] in
  let found := [Mem.componentA; Mem.componentB; Mem.componentC] in
  objectStatuses Mem.statusOf Mem.ctx1 [0; 1; 2] w
  = Some (evaluated Mem.statusOf found,
          mkWorld (heap w) (cluster w)
                  (trace w ++ evaluationLog Mem.statusOf Mem.logger1 found))
  /\ (forall os,
        os ∈ evaluated Mem.statusOf found <->
        exists obj s, obj ∈ found /\ Mem.statusOf obj = inl s
                      /\ os = withObjectStatus (newObjectStatus obj) s)
  /\ exists new w3,
      composeStatus Mem.reconciler Mem.statusOf "Ready" Mem.groupVersion Mem.request1
        (Mem.start Mem.cluster3) = Some (inr (Mem.app3, new), w3)
      /\ Objects (st_ComponentList new)
         = evaluated Mem.statusOf (claimedValues Mem.groupVersion Mem.app3 found)
      /\ Reconcile Mem.reconciler Mem.statusOf "Ready" Mem.groupVersion Mem.request1
           (Mem.start Mem.cluster3)
         = writeBack Mem.reconciler Mem.app3 new w3.
Proof.
  apply (objectStatuses_keeps_successes Mem.reconciler Mem.statusOf "Ready"
           Mem.groupVersion Mem.ctx1 Mem.logger1);
    vm_compute; reflexivity.
Defined.

(** The list of the example, spelled out. *)
Example evaluated_A_B_C :
  evaluated Mem.statusOf [Mem.componentA; Mem.componentB; Mem.componentC]
  = [mkObjectStatus "example.com" "Widget" "a" "/apis/example.com/v1/widgets/a" "Ready";
     mkObjectStatus "example.com" "Gizmo" "c" "/apis/example.com/v1/gizmos/c" "Ready"].
Proof. reflexivity. Qed.

(** ** Unknown kinds and list failures *)

Section DiscoveryFailures.

Context {Cluster : Type}.
Variable r : ApplicationReconciler Cluster.

Lemma fetchLoop_all_unknown (logger : Logger) (selector : option LabelSelector)
    (namespace : string) (groupKinds : list GroupKind) :
  forall (resources : list ptr) (w : World Cluster),
    Forall (fun gk => exists e, Mapper_RESTMapping r (cluster w) gk = inr e)
           groupKinds ->
    fetchLoop r logger selector namespace groupKinds resources w =
    Some ((resources, None),
          mkWorld (heap w) (cluster w) (trace w ++ unknownKindLog logger groupKinds)).
Proof.
  induction groupKinds as [|gk rest IH]; intros resources w Hall.
  - simpl. rewrite app_nil_r, world_eta. reflexivity.
  - inversion Hall as [|gk' rest' [e He] Hrest]; subst.
    rewrite (fetchLoop_unknown r _ _ _ _ _ _ _ e He).
    rewrite IH by exact Hrest. cbn [heap cluster trace].
    rewrite <- app_assoc. reflexivity.
Qed.

Lemma fetchLoop_app (logger : Logger) (selector : option LabelSelector)
    (namespace : string) (pre rest : list GroupKind) :
  forall (resources ptrs : list ptr) (w w1 : World Cluster),
    fetchLoop r logger selector namespace pre resources w = Some ((ptrs, None), w1) ->
    fetchLoop r logger selector namespace (pre ++ rest) resources w =
    fetchLoop r logger selector namespace rest ptrs w1.
Proof.
  induction pre as [|gk pre IH]; intros resources ptrs w w1 Hrun.
  - simpl in Hrun. injection Hrun as <- <-. reflexivity.
  - rewrite <- app_comm_cons.
    destruct (Mapper_RESTMapping r (cluster w) gk) as [mapping|e] eqn:Hm.
    + destruct selector as [sel|].
      2:{ rewrite (fetchLoop_nil_selector r _ _ _ _ _ _ mapping Hm) in Hrun.
          discriminate. }
      destruct (Client_List r (cluster w) (rm_GroupVersionKind mapping) namespace
                            (MatchLabels sel)) as [items|err] eqn:Hl.
      * rewrite (fetchLoop_listed r _ _ _ _ _ _ _ mapping items Hm Hl) in Hrun.
        rewrite (fetchLoop_listed r _ _ _ _ _ _ _ mapping items Hm Hl).
        apply IH. exact Hrun.
      * rewrite (fetchLoop_list_error r _ _ _ _ _ _ _ mapping err Hm Hl) in Hrun.
        discriminate.
    + rewrite (fetchLoop_unknown r _ _ _ _ _ _ _ e Hm) in Hrun.
      rewrite (fetchLoop_unknown r _ _ _ _ _ _ _ e Hm).
      apply IH. exact Hrun.
Qed.

Lemma fetchLoop_cluster (logger : Logger) (selector : option LabelSelector)
    (namespace : string) (groupKinds : list GroupKind) (resources : list ptr)
    (vals : list Unstructured) (w w1 : World Cluster)
    (out : list ptr * option error) :
  pointsTo (heap w) resources vals ->
  fetchLoop r logger selector namespace groupKinds resources w = Some (out, w1) ->
  cluster w1 = cluster w.
Proof.
  intros Hp Hrun.
  pose proof (fetchLoop_values r logger selector namespace groupKinds
                resources vals w Hp) as Hv.
  destruct (discovered r (cluster w) selector namespace groupKinds vals)
    as [[vals' err]|].
  - destruct Hv as (ptrs' & w' & Hrun' & _ & Hc & _).
    rewrite Hrun in Hrun'. injection Hrun' as _ <-. exact Hc.
  - rewrite Hrun in Hv. discriminate.
Qed.

(** A pair that does not resolve contributes nothing to the values
    discovered, wherever it stands. *)
Lemma discovered_skips_unknown (c : Cluster) (selector : option LabelSelector)
    (namespace : string) (gk : GroupKind) (e : error) (pre post : list GroupKind) :
  Mapper_RESTMapping r c gk = inr e ->
  forall acc,
    discovered r c selector namespace (pre ++ gk :: post) acc
    = discovered r c selector namespace (pre ++ post) acc.
Proof.
  intros Hm. induction pre as [|gk' pre IH]; intros acc.
  - simpl. rewrite Hm. reflexivity.
  - simpl. destruct (Mapper_RESTMapping r c gk'); [| apply IH].
    destruct selector; [| reflexivity].
    destruct (Client_List r c _ namespace _); [apply IH | reflexivity].
Qed.

End DiscoveryFailures.

(** C7. A pair that does not resolve is logged and skipped: it leaves the
    discovered values as they are without it, and a discovery over pairs
    that all fail to resolve returns the empty sequence and no error,
    having only logged.  A failing listing for a resolvable pair ends
    discovery at that pair with the error, and the pass ends in a requeue
    with that error. *)
Theorem fetchComponentListResources_unknown_and_failing {Cluster : Type}
    (r : ApplicationReconciler Cluster) (status : Unstructured -> string + error)
    (StatusReady : string) (gv : GroupVersion)
    (ctx : Context) (logger : Logger) (sel : LabelSelector) (namespace : string)
    (w : World Cluster) :
  Value ctx loggerCtxKey = Some logger ->
  (forall groupKinds selector,
      Forall (fun gk => exists e, Mapper_RESTMapping r (cluster w) gk = inr e)
             groupKinds ->
      fetchComponentListResources r ctx groupKinds selector namespace w
      = Some (([], None),
              mkWorld (heap w) (cluster w) (trace w ++ unknownKindLog logger groupKinds)))
  /\ (forall pre gk post e acc,
        Mapper_RESTMapping r (cluster w) gk = inr e ->
        discovered r (cluster w) (Some sel) namespace (pre ++ gk :: post) acc
        = discovered r (cluster w) (Some sel) namespace (pre ++ post) acc)
  /\ (forall pre gk post mapping e ptrs w1,
        fetchComponentListResources r ctx pre (Some sel) namespace w
        = Some ((ptrs, None), w1) ->
        Mapper_RESTMapping r (cluster w) gk = inl mapping ->
        Client_List r (cluster w) (rm_GroupVersionKind mapping) namespace
                    (MatchLabels sel) = inr e ->
        fetchComponentListResources r ctx (pre ++ gk :: post) (Some sel) namespace w
        = Some ((ptrs, Some e),
                mkWorld (heap w1) (cluster w)
                        (trace w1 ++ [EvRESTMapping gk;
                                      EvList (rm_GroupVersionKind mapping) namespace
                                             (MatchLabels sel)])))
  /\ (forall req app e ptrs w1,
        Client_Get r (cluster w) (req_NamespacedName req) = inl app ->
        app_DeletionTimestamp app = None ->
        fetchComponentListResources r (requestContext r req)
          (ComponentGroupKinds (app_Spec app)) (Selector (app_Spec app))
          (app_Namespace app) (afterGet req w) = Some ((ptrs, Some e), w1) ->
        Reconcile r status StatusReady gv req w = Some ((mkResult true, Some e), w1)).
Proof.
  intros Hlog. split; [| split; [| split]].
  - intros groupKinds selector Hall. unfold fetchComponentListResources.
    rewrite (bind_Some _ _ _ _ _ (getLoggerOrDie_run ctx logger w Hlog)).
    apply fetchLoop_all_unknown. exact Hall.
  - intros pre gk post e acc Hm. apply (discovered_skips_unknown r _ _ _ _ e). exact Hm.
  - intros pre gk post mapping e ptrs w1 Hpre Hm Hl.
    unfold fetchComponentListResources in *.
    rewrite (bind_Some _ _ _ _ _ (getLoggerOrDie_run ctx logger w Hlog)) in Hpre.
    rewrite (bind_Some _ _ _ _ _ (getLoggerOrDie_run ctx logger w Hlog)).
    rewrite (fetchLoop_app r _ _ _ pre (gk :: post) _ _ _ _ Hpre).
    assert (Hc : cluster w1 = cluster w).
    { apply (fetchLoop_cluster r logger (Some sel) namespace pre [] [] w w1
               (ptrs, None)); [constructor | exact Hpre]. }
    rewrite <- Hc in Hm, Hl.
    rewrite (fetchLoop_list_error r _ _ _ _ _ _ _ mapping e Hm Hl).
    rewrite Hc. reflexivity.
  - intros req app e ptrs w1 Hget Hdel Hfetch.
    unfold Reconcile, composeStatus, bind, Get. cbv zeta. cbn beta iota.
    rewrite Hget, Hdel. fold (afterGet req w).
    rewrite Hfetch. reflexivity.
Qed.

(** On a cluster whose listings fail: the unknown kind is skipped, the
    listing of Widget ends discovery with the error, and the pass asks for
    a requeue with it. *)
Lemma fetchComponentListResources_unknown_and_failing_witness :
  let w := Mem.start Mem.unlistableCluster in
  fetchComponentListResources Mem.reconciler Mem.ctx1 [Mem.unknownGK]
    (Some Mem.selector1) "default" w
  = Some (([], None),
          mkWorld (heap w) (cluster w)
                  (trace w ++ unknownKindLog Mem.logger1 [Mem.unknownGK]))
  /\ (exists w',
        fetchComponentListResources Mem.reconciler Mem.ctx1
          ([Mem.unknownGK] ++ Mem.widgetGK :: [Mem.gadgetGK])
          (Some Mem.selector1) "default" w
        = Some (([], Some (OtherError "list failed")), w'))
  /\ (exists w',
        Reconcile Mem.reconciler Mem.statusOf "Ready" Mem.groupVersion Mem.request1 w
        = Some ((mkResult true, Some (OtherError "list failed")), w')).
Proof.
  intros w.
  destruct (fetchComponentListResources_unknown_and_failing Mem.reconciler
              Mem.statusOf "Ready" Mem.groupVersion Mem.ctx1 Mem.logger1
              Mem.selector1 "default" w eq_refl) as (Ha & _ & Hc & Hd).
  split; [| split].
  - apply Ha. constructor; [| constructor].
    exists (OtherError "no matches for kind"). reflexivity.
  - eexists.
    apply (Hc [Mem.unknownGK] Mem.widgetGK [Mem.gadgetGK]
              (mkRESTMapping Mem.widgetGVK) (OtherError "list failed") []
              (mkWorld [] Mem.unlistableCluster
                       (unknownKindLog Mem.logger1 [Mem.unknownGK])));
      reflexivity.
  - eexists.
    apply (Hd Mem.request1 (Mem.app1 Mem.emptyStatus) (OtherError "list failed") []
              (mkWorld [] Mem.unlistableCluster
                 [EvGet (req_NamespacedName Mem.request1);
                  EvRESTMapping Mem.widgetGK;
                  EvList Mem.widgetGVK "default" (MatchLabels Mem.selector1)]));
      reflexivity.
Defined.

(** ** The condition a pass records *)

Lemma getCondition_setCondition (conds : list Condition) (ctype : string)
    (st : ConditionStatus) (reason message : string) :
  getCondition (setCondition conds ctype st reason message) ctype
  = Some (mkCondition ctype st reason message).
Proof.
  induction conds as [|c conds IH]; simpl.
  - rewrite String.eqb_refl. reflexivity.
  - destruct (String.eqb (c_Type c) ctype) eqn:Hc; simpl.
    + rewrite String.eqb_refl. reflexivity.
    + rewrite Hc. exact IH.
Qed.

Lemma elem_of_setCondition (conds : list Condition) (ctype : string)
    (st : ConditionStatus) (reason message : string) (c : Condition) :
  c ∈ setCondition conds ctype st reason message ->
  c ∈ conds \/ c = mkCondition ctype st reason message.
Proof.
  induction conds as [|c0 conds IH]; simpl.
  - intros H. apply list_elem_of_singleton in H. right. assumption.
  - destruct (String.eqb (c_Type c0) ctype).
    + intros H. apply elem_of_cons in H as [->|H]; [right; reflexivity |].
      left. right. assumption.
    + intros H. apply elem_of_cons in H as [->|H]; [left; left |].
      destruct (IH H) as [Hin|Heq]; [left; right; assumption | right; assumption].
Qed.

Lemma newApplicationStatus_condition (StatusReady : string) (app : Application)
    (objs : list ObjectStatus) :
  getCondition (Conditions (newApplicationStatus StatusReady app objs)) Ready
  = Some (verdictCondition StatusReady (newApplicationStatus StatusReady app objs)).
Proof.
  unfold verdictCondition. rewrite newApplicationStatus_objects.
  unfold newApplicationStatus.
  destruct (aggregateReady StatusReady objs); simpl; apply getCondition_setCondition.
Qed.

Lemma not_application_write_records (StatusReady : string) (ev : Event) :
  isApplicationWrite ev = false -> recordsVerdict StatusReady ev.
Proof. destruct ev; simpl; try discriminate; auto. Qed.

Section Verdict.

Context {Cluster : Type}.
Variable r : ApplicationReconciler Cluster.
Variable status : Unstructured -> string + error.
Variable StatusReady : string.
Variable gv : GroupVersion.

(** However the first phase ends, it writes no Application, and a
    candidate it hands on was composed by [newApplicationStatus]. *)
Lemma composeStatus_inv (req : Request) (w w1 : World Cluster)
    (x : (Result * option error) + (Application * ApplicationStatus)) :
  composeStatus r status StatusReady gv req w = Some (x, w1) ->
  emits (fun ev => isApplicationWrite ev = false) w w1
  /\ (forall app new, x = inr (app, new) ->
        exists objs, new = newApplicationStatus StatusReady app objs).
Proof.
  intros Hrun.
  assert (E0 : emits (fun ev => isApplicationWrite ev = false) w (afterGet req w)).
  { eexists. split; [reflexivity |]. repeat constructor. }
  destruct (Client_Get r (cluster w) (req_NamespacedName req)) as [app|e] eqn:Hget.
  - destruct (app_DeletionTimestamp app) as [t|] eqn:Hdel.
    + unfold composeStatus, bind, Get in Hrun. cbv zeta in Hrun.
      cbn beta iota in Hrun. rewrite Hget, Hdel in Hrun.
      injection Hrun as <- <-. split; [exact E0 | discriminate].
    + pose proof (composeStatus_run r status StatusReady gv req app w Hget Hdel) as Hc.
      destruct (discovered r (cluster w) (Selector (app_Spec app))
                  (app_Namespace app) (ComponentGroupKinds (app_Spec app)) [])
        as [[vals [e|]]|].
      * destruct Hc as (w' & Hrun' & _ & Hem). rewrite Hrun in Hrun'.
        injection Hrun' as -> ->. split; [| discriminate].
        apply (emits_weaken _ _ _ _ not_write_not_application_write). exact Hem.
      * destruct Hc as (w' & Hrun' & Hem). rewrite Hrun in Hrun'.
        injection Hrun' as -> ->. split; [exact Hem |].
        intros app' new Heq. injection Heq as <- <-.
        eexists. unfold candidateStatus. reflexivity.
      * rewrite Hrun in Hc. discriminate.
  - unfold composeStatus, bind, Get in Hrun. cbv zeta in Hrun.
    cbn beta iota in Hrun. rewrite Hget in Hrun.
    destruct (IsNotFound e); injection Hrun as <- <-;
      (split; [exact E0 | discriminate]).
Qed.

End Verdict.

Lemma newApplicationStatus_reasons (StatusReady : string) (app : Application)
    (objs : list ObjectStatus) (c : Condition) :
  c ∈ Conditions (newApplicationStatus StatusReady app objs) ->
  c ∈ Conditions (app_Status app)
  \/ (c_Type c = Ready
      /\ (c_Reason c = "ComponentsReady" \/ c_Reason c = "ComponentsNotReady")).
Proof.
  intros Hc. unfold newApplicationStatus in Hc.
  destruct (aggregateReady StatusReady objs); simpl in Hc;
    apply elem_of_setCondition in Hc as [Hin| ->]; auto.
Qed.

Lemma Reconcile_written_records_verdict {Cluster : Type}
    (r : ApplicationReconciler Cluster) (status : Unstructured -> string + error)
    (StatusReady : string) (gv : GroupVersion) (req : Request)
    (w w' : World Cluster) (out : Result * option error) :
  Reconcile r status StatusReady gv req w = Some (out, w') ->
  emits (recordsVerdict StatusReady) w w'.
Proof.
  intros Hrun. unfold Reconcile in Hrun.
  apply bind_inv in Hrun as (x & w1 & Hcomp & Hk).
  destruct (composeStatus_inv r status StatusReady gv req w w1 x Hcomp)
    as (Hem & Hnew).
  apply (emits_trans _ w w1 w').
  { apply (emits_weaken _ _ _ _ (not_application_write_records StatusReady)).
    exact Hem. }
  destruct x as [returned|[app new]].
  - injection Hk as _ <-. apply emits_refl.
  - destruct (Hnew app new eq_refl) as (objs & ->).
    rewrite writeBack_always_updates in Hk.
    destruct (Client_UpdateApplication r (cluster w1) _) as [c' err].
    injection Hk as _ <-.
    eexists. split; [reflexivity |].
    constructor; [| constructor].
    simpl. apply newApplicationStatus_condition.
Qed.

(** C8. A pass that reaches aggregation (the Application is found and live,
    and discovery returns without error) composes its candidate by the
    setter of its verdict: [setReadyCondition] with reason
    "ComponentsReady" when the aggregate over the evaluated components is
    ready, [setNotReadyCondition] with reason "ComponentsNotReady" when it
    is not, applied to the stored status with the observed generation and
    the component list set.  The pass then stores it: its last event, and
    its only write of an Application, is the update of the Application
    with that candidate as status, and its result is that of this update.
    The candidate carries the Ready condition of the verdict, and apart
    from the conditions of the stored status no condition with another
    reason.  Whatever a pass does, every Application that it writes
    records the condition of the verdict over the component list it
    carries. *)
Theorem Reconcile_records_verdict {Cluster : Type}
    (r : ApplicationReconciler Cluster) (status : Unstructured -> string + error)
    (StatusReady : string) (gv : GroupVersion) (req : Request)
    (app : Application) (vals : list Unstructured) (w : World Cluster) :
  Client_Get r (cluster w) (req_NamespacedName req) = inl app ->
  app_DeletionTimestamp app = None ->
  discovered r (cluster w) (Selector (app_Spec app)) (app_Namespace app)
             (ComponentGroupKinds (app_Spec app)) [] = Some (vals, None) ->
  let objs := evaluated status (claimedValues gv app vals) in
  let base := {| ObservedGeneration := app_Generation app;
                 Conditions := Conditions (app_Status app);
                 st_ComponentList := mkComponentList objs |} in
  let new := if aggregateReady StatusReady objs
             then setReadyCondition base "ComponentsReady" "all components ready"
             else setNotReadyCondition base "ComponentsNotReady"
                                       "some components not ready" in
  (exists w1 evs,
      composeStatus r status StatusReady gv req w = Some (inr (app, new), w1)
      /\ trace w1 = trace w ++ evs
      /\ Forall (fun ev => isApplicationWrite ev = false) evs
      /\ Reconcile r status StatusReady gv req w
         = Some (match snd (Client_UpdateApplication r (cluster w1)
                              (withStatus app new)) with
                 | Some e => (mkResult true, Some e)
                 | None => (mkResult false, None)
                 end,
                 mkWorld (heap w1)
                         (fst (Client_UpdateApplication r (cluster w1)
                                 (withStatus app new)))
                         (trace w1 ++ [EvUpdateApplication (withStatus app new)])))
  /\ getCondition (Conditions new) Ready
     = Some (if aggregateReady StatusReady objs
             then mkCondition Ready ConditionTrue "ComponentsReady"
                              "all components ready"
             else mkCondition Ready ConditionFalse "ComponentsNotReady"
                              "some components not ready")
  /\ (forall c, c ∈ Conditions new ->
                c ∈ Conditions (app_Status app)
                \/ (c_Type c = Ready
                    /\ (c_Reason c = "ComponentsReady"
                        \/ c_Reason c = "ComponentsNotReady")))
  /\ (forall req' w0 out w',
        Reconcile r status StatusReady gv req' w0 = Some (out, w') ->
        emits (recordsVerdict StatusReady) w0 w').
Proof.
  intros Hget Hdel Hdisc objs base new.
  assert (Hnew : new = candidateStatus status StatusReady gv app vals) by reflexivity.
  split; [| split; [| split]].
  - pose proof (composeStatus_run r status StatusReady gv req app w Hget Hdel) as Hc.
    rewrite Hdisc in Hc. destruct Hc as (w1 & Hrun & (evs & Htr & HF)).
    rewrite <- Hnew in Hrun.
    exists w1, evs. split; [exact Hrun |]. split; [exact Htr |].
    split; [exact HF |].
    unfold Reconcile. rewrite (bind_Some _ _ _ _ _ Hrun).
    rewrite writeBack_always_updates.
    destruct (Client_UpdateApplication r (cluster w1) (withStatus app new))
      as [c' err]. reflexivity.
  - rewrite Hnew. unfold candidateStatus.
    rewrite newApplicationStatus_condition.
    unfold verdictCondition. rewrite newApplicationStatus_objects. reflexivity.
  - intros c Hc. rewrite Hnew in Hc. unfold candidateStatus in Hc.
    apply newApplicationStatus_reasons in Hc. exact Hc.
  - intros req' w0 out w' Hrun.
    apply (Reconcile_written_records_verdict r status StatusReady gv req' w0 w' out).
    exact Hrun.
Qed.

(** The end-to-end scenario with one Widget ready and one not, listed in
    that order: the candidate is composed by [setNotReadyCondition] with
    reason "ComponentsNotReady" and the Application is written with it. *)
Lemma Reconcile_records_verdict_witness :
  let app := Mem.app1 Mem.emptyStatus in
  let w := Mem.start (Mem.clusterWith Mem.emptyStatus [Mem.widgetA; Mem.widgetB]) in
  let objs := evaluated Mem.statusOf
                (claimedValues Mem.groupVersion app [Mem.widgetB; Mem.widgetB]) in
  let new := setNotReadyCondition
               {| ObservedGeneration := app_Generation app;
                  Conditions := Conditions (app_Status app);
                  st_ComponentList := mkComponentList objs |}
               "ComponentsNotReady" "some components not ready" in
  exists w1,
    composeStatus Mem.reconciler Mem.statusOf "Ready" Mem.groupVersion Mem.request1 w
    = Some (inr (app, new), w1)
    /\ Reconcile Mem.reconciler Mem.statusOf "Ready" Mem.groupVersion Mem.request1 w
       = Some (match snd (Client_UpdateApplication Mem.reconciler (cluster w1)
                            (withStatus app new)) with
               | Some e => (mkResult true, Some e)
               | None => (mkResult false, None)
               end,
               mkWorld (heap w1)
                       (fst (Client_UpdateApplication Mem.reconciler (cluster w1)
                               (withStatus app new)))
                       (trace w1 ++ [EvUpdateApplication (withStatus app new)]))
    /\ getCondition (Conditions new) Ready
       = Some (mkCondition Ready ConditionFalse "ComponentsNotReady"
                           "some components not ready").
Proof.
  intros app w objs new.
  destruct (Reconcile_records_verdict Mem.reconciler Mem.statusOf "Ready"
              Mem.groupVersion Mem.request1 app [Mem.widgetB; Mem.widgetB] w
              eq_refl eq_refl eq_refl)
    as ((w1 & evs & Hcomp & _ & _ & Hrun) & Hcond & _).
  exists w1. split; [exact Hcomp |]. split; [exact Hrun | exact Hcond].
Defined.

(** ** Determinism of the candidate status *)

Section Determinism.

Context {Cluster : Type}.
Variable r : ApplicationReconciler Cluster.

(** Discovery on values depends on the cluster through the answers of
    the mapper and of the listings only. *)
Lemma discovered_reads (c1 c2 : Cluster) (selector : option LabelSelector)
    (namespace : string) (groupKinds : list GroupKind) :
  (forall gk, Mapper_RESTMapping r c1 gk = Mapper_RESTMapping r c2 gk) ->
  (forall gvk ns labels, Client_List r c1 gvk ns labels = Client_List r c2 gvk ns labels) ->
  forall acc,
    discovered r c1 selector namespace groupKinds acc
    = discovered r c2 selector namespace groupKinds acc.
Proof.
  intros Hm Hl. induction groupKinds as [|gk rest IH]; intros acc; simpl.
  - reflexivity.
  - rewrite Hm. destruct (Mapper_RESTMapping r c2 gk) as [mapping|e]; [| apply IH].
    destruct selector as [sel|]; [| reflexivity].
    rewrite Hl. destruct (Client_List r c2 _ namespace _); [apply IH | reflexivity].
Qed.

End Determinism.

Lemma discovered_same_reads {Cluster : Type} (r : ApplicationReconciler Cluster)
    (c1 c2 : Cluster) (selector : option LabelSelector) (namespace : string)
    (groupKinds : list GroupKind) :
  (forall gk, gk ∈ groupKinds ->
              sameMapping (Mapper_RESTMapping r c1 gk) (Mapper_RESTMapping r c2 gk)) ->
  (forall gk mapping sel,
      gk ∈ groupKinds ->
      Mapper_RESTMapping r c1 gk = inl mapping ->
      selector = Some sel ->
      Client_List r c1 (rm_GroupVersionKind mapping) namespace (MatchLabels sel)
      = Client_List r c2 (rm_GroupVersionKind mapping) namespace (MatchLabels sel)) ->
  forall acc,
    discovered r c1 selector namespace groupKinds acc
    = discovered r c2 selector namespace groupKinds acc.
Proof.
  induction groupKinds as [|gk rest IH]; intros Hm Hl acc; simpl.
  - reflexivity.
  - assert (IH' : forall acc',
               discovered r c1 selector namespace rest acc'
               = discovered r c2 selector namespace rest acc').
    { apply IH.
      - intros gk' Hin. apply Hm. right. exact Hin.
      - intros gk' mapping sel Hin. apply Hl. right. exact Hin. }
    pose proof (Hm gk ltac:(left)) as Hgk.
    pose proof (Hl gk) as Hlk.
    destruct (Mapper_RESTMapping r c1 gk) as [m1|e1];
      destruct (Mapper_RESTMapping r c2 gk) as [m2|e2]; simpl in Hgk;
      try contradiction.
    + subst m2. destruct selector as [sel|]; [| reflexivity].
      rewrite <- (Hlk m1 sel ltac:(left) eq_refl eq_refl).
      destruct (Client_List r c1 (rm_GroupVersionKind m1) namespace (MatchLabels sel));
        [apply IH' | reflexivity].
    + apply IH'.
Qed.

(** C9. Two passes end their first phase alike, whatever else differs
    between their worlds, when they get the same answer to the fetch of
    the Application and, if it is an Application, the same answers to the
    reads a pass over it performs: the resolution of its component kinds
    and, for the kinds that resolve, their listing in its namespace under
    its selector.  Both panic, or both return the same result, or both
    compose the same candidate status for the same Application, by
    lines 87-98 from the same component list.  Resources that the
    Application does not select, the store, the trace of earlier work and
    the cluster's answers to updates play no part; the candidate depends
    on what was stored only through the status of the fetched
    Application. *)
Theorem composeStatus_deterministic {Cluster : Type}
    (r : ApplicationReconciler Cluster) (status : Unstructured -> string + error)
    (StatusReady : string) (gv : GroupVersion) (req : Request)
    (w1 w2 : World Cluster) :
  Client_Get r (cluster w1) (req_NamespacedName req)
  = Client_Get r (cluster w2) (req_NamespacedName req) ->
  (forall app,
      Client_Get r (cluster w1) (req_NamespacedName req) = inl app ->
      sameReads r (cluster w1) (cluster w2) app) ->
  fst <$> composeStatus r status StatusReady gv req w1
  = fst <$> composeStatus r status StatusReady gv req w2
  /\ (forall app new w1',
        composeStatus r status StatusReady gv req w1 = Some (inr (app, new), w1') ->
        exists objs w2',
          new = newApplicationStatus StatusReady app objs
          /\ composeStatus r status StatusReady gv req w2
             = Some (inr (app, newApplicationStatus StatusReady app objs), w2')).
Proof.
  intros Hget Hreads.
  assert (Heq : fst <$> composeStatus r status StatusReady gv req w1
                = fst <$> composeStatus r status StatusReady gv req w2).
  { destruct (Client_Get r (cluster w1) (req_NamespacedName req)) as [app|e] eqn:Hget1.
    - destruct (app_DeletionTimestamp app) as [t|] eqn:Hdel.
      + unfold composeStatus, bind, Get. cbv zeta. cbn beta iota.
        rewrite <- Hget, Hget1, Hdel. reflexivity.
      + pose proof (composeStatus_run r status StatusReady gv req app w1 Hget1 Hdel)
          as H1.
        pose proof (composeStatus_run r status StatusReady gv req app w2
                      (eq_sym Hget) Hdel) as H2.
        destruct (Hreads app eq_refl) as [Hm Hl].
        rewrite (discovered_same_reads r (cluster w1) (cluster w2) _ _ _ Hm Hl) in H1.
        destruct (discovered r (cluster w2) (Selector (app_Spec app))
                    (app_Namespace app) (ComponentGroupKinds (app_Spec app)) [])
          as [[vals [e|]]|].
        * destruct H1 as (w1' & -> & _). destruct H2 as (w2' & -> & _). reflexivity.
        * destruct H1 as (w1' & -> & _). destruct H2 as (w2' & -> & _). reflexivity.
        * rewrite H1, H2. reflexivity.
    - unfold composeStatus, bind, Get. cbv zeta. cbn beta iota.
      rewrite <- Hget, Hget1. destruct (IsNotFound e); reflexivity. }
  split; [exact Heq |].
  intros app new w1' Hrun1.
  destruct (composeStatus_inv r status StatusReady gv req w1 w1' _ Hrun1)
    as (_ & Hnew).
  destruct (Hnew app new eq_refl) as (objs & ->).
  rewrite Hrun1 in Heq. simpl in Heq.
  destruct (composeStatus r status StatusReady gv req w2) as [[x w2']|];
    [| discriminate].
  simpl in Heq. injection Heq as <-.
  exists objs, w2'. split; reflexivity.
Qed.

(** Two passes over the same Application and Widgets, both claiming
    ownership: one from a fresh world whose cluster accepts the updates of
    resources; one from a world with a history, whose cluster refuses
    them, resolves one more kind and holds a Gadget in another
    namespace. *)
Lemma composeStatus_deterministic_witness :
  fst <$> composeStatus Mem.reconciler Mem.statusOf "Ready" Mem.groupVersion
            Mem.request1 (Mem.start (Mem.owningCluster false))
  = fst <$> composeStatus Mem.reconciler Mem.statusOf "Ready" Mem.groupVersion
              Mem.request1 Mem.busyWorld.
Proof.
  apply (composeStatus_deterministic Mem.reconciler Mem.statusOf "Ready"
           Mem.groupVersion Mem.request1 (Mem.start (Mem.owningCluster false))
           Mem.busyWorld).
  - reflexivity.
  - intros app Happ. vm_compute in Happ. injection Happ as <-.
    split.
    + intros gk Hin. apply list_elem_of_singleton in Hin. subst gk. reflexivity.
    + intros gk mapping sel Hin Hm Hsel.
      apply list_elem_of_singleton in Hin. subst gk.
      vm_compute in Hm. injection Hm as <-.
      vm_compute in Hsel. injection Hsel as <-.
      vm_compute. reflexivity.
Defined.

(** The two clusters of these passes do not answer alike to every read:
    they differ on the listing of Gadgets in the other namespace. *)
Example unselected_listing_differs :
  Client_List Mem.reconciler (Mem.owningCluster false) Mem.gadgetGVK "other" ∅
  <> Client_List Mem.reconciler Mem.busyCluster Mem.gadgetGVK "other" ∅.
Proof. vm_compute. discriminate. Qed.

(** ** Failures of the ownership claim *)

(** C10. [setOwnerRefForResources] never returns an error: when it returns,
    its error is nil, and on valid pointers it does return, whatever the
    updates of the resources answered.  So the ownership step of a pass
    never returns an error either, and the requeue of lines 79-81 is
    never taken. *)
Theorem setOwnerRefForResources_returns_nil {Cluster : Type}
    (r : ApplicationReconciler Cluster) (gv : GroupVersion) (ctx : Context)
    (logger : Logger) (o : OwnerReference) (resources : list ptr)
    (w : World Cluster) :
  Value ctx loggerCtxKey = Some logger ->
  Forall (fun p => p < length (heap w)) resources ->
  (exists w', setOwnerRefForResources r ctx o resources w = Some (None, w'))
  /\ (forall o' resources' w0 err w',
        setOwnerRefForResources r ctx o' resources' w0 = Some (err, w') -> err = None)
  /\ (forall app resources' w0 err w',
        claimOwnership r gv ctx app resources' w0 = Some (err, w') -> err = None).
Proof.
  intros Hlog Hv.
  assert (Hnil : forall o' resources' w0 err w',
             setOwnerRefForResources r ctx o' resources' w0 = Some (err, w') ->
             err = None).
  { intros o' resources' w0 err w' Hrun. unfold setOwnerRefForResources in Hrun.
    apply bind_inv in Hrun as (l & wa & _ & Hrun).
    apply bind_inv in Hrun as (u & wb & _ & Hrun).
    injection Hrun as <- _. reflexivity. }
  split; [| split].
  - destruct (setOwnerRefForResources_run r ctx logger o resources w Hlog Hv)
      as (w' & Hrun & _).
    exists w'. exact Hrun.
  - exact Hnil.
  - intros app resources' w0 err w' Hrun. unfold claimOwnership in Hrun.
    destruct (AddOwnerRef (app_Spec app)).
    + apply bind_inv in Hrun as (o' & wa & _ & Hrun).
      apply (Hnil _ _ _ _ _ Hrun).
    + injection Hrun as <- _. reflexivity.
Qed.

(** On a cluster that refuses every update of a resource the claim still
    returns nil, and the whole pass ends without a requeue. *)
Lemma setOwnerRefForResources_returns_nil_witness :
  let w := mkWorld [Mem.widgetA; Mem.widgetB] Mem.readOnlyCluster [] in
  (exists w', setOwnerRefForResources Mem.reconciler Mem.ctx1 Mem.ownerRef1 [0; 1] w
              = Some (None, w'))
  /\ exists w', Mem.run (Mem.owningCluster true) Mem.request1
                = Some ((mkResult false, None), w').
Proof.
  intros w. split.
  - apply (setOwnerRefForResources_returns_nil Mem.reconciler Mem.groupVersion
             Mem.ctx1 Mem.logger1 Mem.ownerRef1 [0; 1] w).
    + reflexivity.
    + simpl. repeat constructor.
  - eexists. vm_compute. reflexivity.
Defined.

(** * Further properties of the code *)

(** ** The aggregate over several lists *)

Lemma aggregateReady_app (StatusReady : string) (l1 l2 : list ObjectStatus) :
  aggregateReady StatusReady (l1 ++ l2)
  = aggregateReady StatusReady l1 && aggregateReady StatusReady l2.
Proof.
  induction l1 as [|os l1 IH]; simpl; [reflexivity |].
  destruct (negb (String.eqb (os_Status os) StatusReady)); [reflexivity | exact IH].
Qed.

(** X1. The verdict over a concatenation of component lists is the
    conjunction of the verdicts over the parts, and the verdict does not
    depend on the order of the entries: the early return of the loop only
    changes how soon a false verdict is found. *)
Theorem aggregateReady_order_independent (StatusReady : string) :
  (forall l1 l2 : list ObjectStatus,
      aggregateReady StatusReady (l1 ++ l2)
      = aggregateReady StatusReady l1 && aggregateReady StatusReady l2)
  /\ (forall l l' : list ObjectStatus,
        l ≡ₚ l' -> aggregateReady StatusReady l = aggregateReady StatusReady l').
Proof.
  split; [apply aggregateReady_app |].
  intros l l' Hp. induction Hp as [|x l l' _ IH|x y l|l l' l'' _ IH1 _ IH2]; simpl.
  - reflexivity.
  - rewrite IH. reflexivity.
  - destruct (negb (String.eqb (os_Status x) StatusReady));
      destruct (negb (String.eqb (os_Status y) StatusReady)); reflexivity.
  - congruence.
Qed.

(** ** More on the owner references of one resource *)

Lemma overwrite_other (o ref : OwnerReference) :
  sameOwner o ref = false -> overwrite o ref = ref.
Proof. intros H. unfold overwrite. rewrite H. reflexivity. Qed.

Lemma filter_others_map_overwrite (o : OwnerReference) (l : list OwnerReference) :
  List.filter (fun ref => negb (sameOwner o ref)) (map (overwrite o) l)
  = List.filter (fun ref => negb (sameOwner o ref)) l.
Proof.
  induction l as [|x l IH]; simpl; [reflexivity |].
  rewrite sameOwner_overwrite.
  destruct (sameOwner o x) eqn:Hs; simpl; [exact IH |].
  rewrite overwrite_other by assumption. rewrite IH. reflexivity.
Qed.

(** X2. The ownership step leaves the references to other owners as they
    are and in their order, and changes the number of references only by
    the one it appends when no entry has the owner's kind, apiVersion and
    name. *)
Theorem claimOwnerRefs_keeps_other_owners (o : OwnerReference)
    (l : list OwnerReference) :
  List.filter (fun ref => negb (sameOwner o ref)) (claimOwnerRefs o l)
  = List.filter (fun ref => negb (sameOwner o ref)) l
  /\ length (claimOwnerRefs o l)
     = length l + (if existsb (sameOwner o) l then 0 else 1).
Proof.
  rewrite claimOwnerRefs_refines. unfold claim_spec.
  destruct (existsb (sameOwner o) l) eqn:He.
  - split; [apply filter_others_map_overwrite |].
    rewrite length_map. lia.
  - split.
    + rewrite List.filter_app. simpl. rewrite sameOwner_refl. simpl.
      apply app_nil_r.
    + rewrite length_app. reflexivity.
Qed.

Lemma overwrite_current (o ref : OwnerReference) :
  sameOwner o (overwrite o ref) = true -> or_UID (overwrite o ref) = or_UID o.
Proof.
  rewrite sameOwner_overwrite. intros Hs. unfold overwrite. rewrite Hs. simpl.
  destruct (String.eqb_spec (or_UID o) (or_UID ref)) as [He|Hne]; simpl; congruence.
Qed.

(** X3. After the ownership step the resource has an entry with the owner's
    kind, apiVersion and name, and every such entry carries the owner's
    UID: no reference to an earlier incarnation of the owner is left. *)
Theorem claimOwnerRefs_current_owner (o : OwnerReference) (l : list OwnerReference) :
  existsb (sameOwner o) (claimOwnerRefs o l) = true
  /\ forall ref, ref ∈ claimOwnerRefs o l -> sameOwner o ref = true ->
                 or_UID ref = or_UID o.
Proof.
  rewrite claimOwnerRefs_refines. split; [apply claim_spec_found |].
  unfold claim_spec. destruct (existsb (sameOwner o) l) eqn:He.
  - intros ref Hin Hs. apply list_elem_of_fmap in Hin as (x & -> & _).
    apply overwrite_current. assumption.
  - intros ref Hin Hs. apply elem_of_app in Hin as [Hin|Hin].
    + exfalso. apply list_elem_of_In in Hin.
      assert (Hex : existsb (sameOwner o) l = true)
        by (apply existsb_exists; exists ref; auto).
      congruence.
    + apply list_elem_of_singleton in Hin. subst. reflexivity.
Qed.

Lemma map_overwrite_fixed (o : OwnerReference) (l : list OwnerReference) :
  map (overwrite o) l = l <->
  forall ref, ref ∈ l -> sameOwner o ref = true -> or_UID ref = or_UID o.
Proof.
  induction l as [|x l IH]; simpl.
  - split; [intros _ ref Hin; inversion Hin | reflexivity].
  - split.
    + intros Heq. injection Heq as Hx Hl. intros ref Hin Hs.
      apply elem_of_cons in Hin as [->|Hin]; [| apply IH; assumption].
      unfold overwrite in Hx. rewrite Hs in Hx. simpl in Hx.
      destruct (String.eqb_spec (or_UID o) (or_UID x)) as [He|Hne]; simpl in Hx;
        congruence.
    + intros Hall. f_equal.
      * unfold overwrite. destruct (sameOwner o x) eqn:Hs; [| reflexivity].
        rewrite <- (Hall x) by (auto; left). rewrite String.eqb_refl. reflexivity.
      * apply IH. intros ref Hin. apply Hall. right. assumption.
Qed.

(** X4. The ownership step changes nothing exactly when the resource
    already has an entry with the owner's kind, apiVersion and name and all
    such entries carry the owner's UID.  Only the UID is compared: an entry
    that differs from the owner's in its controller or blockOwnerDeletion
    flag alone is left as it is. *)
Theorem claimOwnerRefs_unchanged_iff (o : OwnerReference) (l : list OwnerReference) :
  claimOwnerRefs o l = l <->
  existsb (sameOwner o) l = true
  /\ forall ref, ref ∈ l -> sameOwner o ref = true -> or_UID ref = or_UID o.
Proof.
  rewrite claimOwnerRefs_refines. unfold claim_spec.
  destruct (existsb (sameOwner o) l) eqn:He.
  - rewrite map_overwrite_fixed. split; [auto | intros [_ H]; exact H].
  - split.
    + intros Heq. apply (f_equal length) in Heq. rewrite length_app in Heq.
      simpl in Heq. lia.
    + intros [Hf _]. discriminate.
Qed.

(** A reference to app1 with the present UID that claims to be the
    controller is kept as it was found. *)
Example claimOwnerRefs_keeps_controller_flag :
  let found := mkOwnerReference "app.k8s.io/v1beta1" "Application" "app1" "uid-1"
                                (Some true) (Some true) in
  claimOwnerRefs Mem.ownerRef1 [Mem.otherRef; found] = [Mem.otherRef; found].
Proof. reflexivity. Qed.

(** ** The updates of the ownership step *)

Lemma writes_app (evs1 evs2 : list Event) :
  writes (evs1 ++ evs2) = writes evs1 ++ writes evs2.
Proof. apply List.filter_app. Qed.

Lemma writes_claimEvents (logger : Logger) (obj : Unstructured) (err : option error) :
  writes (claimEvents logger obj err) = [EvUpdate obj].
Proof. destruct err; reflexivity. Qed.

Lemma updatesAt_claimed (o : OwnerReference) (h : list Unstructured) (p : ptr)
    (obj : Unstructured) (ps : list ptr) :
  h !! p = Some obj ->
  updatesAt o (<[p:=claimResource o obj]> h) ps = updatesAt o h ps.
Proof.
  intros Hp. unfold updatesAt. apply list_omap_ext.
  apply Forall2_same_length_lookup_2; [reflexivity |].
  intros i q q' Hq Hq'. rewrite Hq in Hq'. injection Hq' as <-.
  destruct (decide (q = p)) as [->|Hne].
  - rewrite list_lookup_insert_eq by (apply lookup_lt_Some in Hp; assumption).
    rewrite Hp. simpl. rewrite claimResource_idemp. reflexivity.
  - rewrite list_lookup_insert_ne by congruence. reflexivity.
Qed.

Lemma updatesAt_pointsTo (o : OwnerReference) (h : list Unstructured)
    (ps : list ptr) (vals : list Unstructured) :
  pointsTo h ps vals -> updatesAt o h ps = claimUpdates o vals.
Proof.
  intros Hp. induction Hp as [|p v ps vals Hv _ IH].
  - reflexivity.
  - unfold updatesAt, claimUpdates in *. simpl. rewrite Hv. simpl.
    f_equal. exact IH.
Qed.

Section OwnershipUpdates.

Context {Cluster : Type}.
Variable r : ApplicationReconciler Cluster.

Lemma setOwnerRefLoop_updates (logger : Logger) (o : OwnerReference)
    (resources : list ptr) :
  forall w : World Cluster,
    Forall (fun p => p < length (heap w)) resources ->
    exists w' evs,
      setOwnerRefLoop r logger o resources w = Some (tt, w')
      /\ trace w' = trace w ++ evs
      /\ writes evs = updatesAt o (heap w) resources.
Proof.
  induction resources as [|p rest IH]; intros w Hv.
  - exists w, []. rewrite app_nil_r. repeat split; reflexivity.
  - inversion Hv as [|p' rest' Hp Hrest]; subst.
    destruct (lookup_lt_is_Some_2 _ _ Hp) as [obj Hobj].
    rewrite (setOwnerRefLoop_step r logger o p rest w obj Hobj).
    match goal with |- context [setOwnerRefLoop _ _ _ _ ?wn] => set (w1 := wn) end.
    assert (Hv1 : Forall (fun p => p < length (heap w1)) rest)
      by (simpl; rewrite length_insert; assumption).
    destruct (IH w1 Hv1) as (w' & evs & Hrun & Htr & Hw).
    eexists w', (_ ++ evs). split; [exact Hrun |]. split.
    + rewrite Htr. cbn [trace w1]. rewrite <- app_assoc. reflexivity.
    + rewrite writes_app, writes_claimEvents, Hw. cbn [heap w1].
      rewrite (updatesAt_claimed o (heap w) p obj rest Hobj).
      unfold updatesAt. simpl. rewrite Hobj. reflexivity.
Qed.

End OwnershipUpdates.

(** X5. The ownership step is best effort: on valid pointers it sends every
    resource of the slice to the client, once per entry and in the order of
    the slice, each carrying the claimed owner references, whatever the
    earlier updates answered; and it issues no other write. *)
Theorem setOwnerRefForResources_updates_every_resource {Cluster : Type}
    (r : ApplicationReconciler Cluster) (ctx : Context) (logger : Logger)
    (o : OwnerReference) (resources : list ptr) (vals : list Unstructured)
    (w : World Cluster) :
  Value ctx loggerCtxKey = Some logger ->
  derefs (heap w) resources = Some vals ->
  exists w' evs,
    setOwnerRefForResources r ctx o resources w = Some (None, w')
    /\ trace w' = trace w ++ evs
    /\ writes evs = claimUpdates o vals.
Proof.
  intros Hlog Hd. apply derefs_Some in Hd.
  destruct (setOwnerRefLoop_updates r logger o resources w (pointsTo_valid _ _ _ Hd))
    as (w' & evs & Hrun & Htr & Hw).
  exists w', evs. split; [| split; [exact Htr |]].
  - unfold setOwnerRefForResources.
    rewrite (bind_Some _ _ _ _ _ (getLoggerOrDie_run ctx logger w Hlog)).
    rewrite (bind_Some _ _ _ _ _ Hrun). reflexivity.
  - rewrite Hw. apply updatesAt_pointsTo. assumption.
Qed.

(** On a cluster that refuses every update, with a slice that names the
    first resource twice. *)
Lemma setOwnerRefForResources_updates_every_resource_witness :
  let w := mkWorld [Mem.widgetA; Mem.widgetB] Mem.readOnlyCluster [] in
  exists w' evs,
    setOwnerRefForResources Mem.reconciler Mem.ctx1 Mem.ownerRef1 [0; 1; 0] w
    = Some (None, w')
    /\ trace w' = trace w ++ evs
    /\ writes evs = claimUpdates Mem.ownerRef1 [Mem.widgetA; Mem.widgetB; Mem.widgetA].
Proof.
  apply (setOwnerRefForResources_updates_every_resource Mem.reconciler Mem.ctx1
           Mem.logger1); reflexivity.
Defined.

(** ** What the loops leave alone *)

Section Frames.

Context {Cluster : Type}.
Variable r : ApplicationReconciler Cluster.
Variable status : Unstructured -> string + error.
Variable P : Event -> Prop.
Variable logger : Logger.

Hypothesis P_mapping : forall gk, P (EvRESTMapping gk).
Hypothesis P_list : forall gvk namespace labels, P (EvList gvk namespace labels).
Hypothesis P_info : forall msg kvs, P (EvLogInfo logger msg kvs).
Hypothesis P_error : forall e msg kvs, P (EvLogError logger e msg kvs).
Hypothesis P_update : forall obj, P (EvUpdate obj).

(** However the loop over [groupKinds] ends, it has not changed the
    cluster, has only added cells to the store, and has emitted mapper
    calls, listings and entries of its logger only. *)
Lemma fetchLoop_frame (selector : option LabelSelector) (namespace : string)
    (groupKinds : list GroupKind) :
  forall (resources : list ptr) (w w' : World Cluster)
         (out : list ptr * option error),
    fetchLoop r logger selector namespace groupKinds resources w = Some (out, w') ->
    cluster w' = cluster w /\ heap w `prefix_of` heap w' /\ emits P w w'.
Proof.
  induction groupKinds as [|gk rest IH]; intros resources w w' out Hrun.
  - simpl in Hrun. injection Hrun as _ <-.
    split; [reflexivity |]. split; [reflexivity | apply emits_refl].
  - destruct (Mapper_RESTMapping r (cluster w) gk) as [mapping|e] eqn:Hm.
    + destruct selector as [sel|].
      2:{ rewrite (fetchLoop_nil_selector r _ _ _ _ _ _ mapping Hm) in Hrun.
          discriminate. }
      destruct (Client_List r (cluster w) (rm_GroupVersionKind mapping) namespace
                            (MatchLabels sel)) as [items|err] eqn:Hl.
      * rewrite (fetchLoop_listed r _ _ _ _ _ _ _ mapping items Hm Hl) in Hrun.
        apply IH in Hrun as (Hc & Hh & He). cbn [heap cluster] in Hc, Hh.
        split; [exact Hc |]. split.
        -- etrans; [| exact Hh]. apply prefix_app_r. reflexivity.
        -- eapply emits_trans; [| exact He].
           eexists. split; [reflexivity |]. repeat constructor; auto.
      * rewrite (fetchLoop_list_error r _ _ _ _ _ _ _ mapping err Hm Hl) in Hrun.
        injection Hrun as _ <-. split; [reflexivity |]. split; [reflexivity |].
        eexists. split; [reflexivity |]. repeat constructor; auto.
    + rewrite (fetchLoop_unknown r _ _ _ _ _ _ _ e Hm) in Hrun.
      apply IH in Hrun as (Hc & Hh & He). cbn [heap cluster] in Hc, Hh.
      split; [exact Hc |]. split; [exact Hh |].
      eapply emits_trans; [| exact He].
      eexists. split; [reflexivity |]. unfold unknownKindLog. simpl.
      repeat constructor; auto.
Qed.

(** However the ownership loop ends, it has emitted updates of resources
    and entries of its logger only. *)
Lemma setOwnerRefLoop_frame (o : OwnerReference) (resources : list ptr) :
  forall (w w' : World Cluster) (u : unit),
    setOwnerRefLoop r logger o resources w = Some (u, w') -> emits P w w'.
Proof.
  induction resources as [|p rest IH]; intros w w' u Hrun.
  - simpl in Hrun. injection Hrun as _ <-. apply emits_refl.
  - destruct (heap w !! p) as [obj|] eqn:Hobj.
    + rewrite (setOwnerRefLoop_step r logger o p rest w obj Hobj) in Hrun.
      apply IH in Hrun. eapply emits_trans; [| exact Hrun].
      eexists. split; [reflexivity |]. unfold claimEvents.
      destruct (snd (Client_Update r (cluster w) (claimResource o obj)));
        repeat constructor; auto.
    + cbn [setOwnerRefLoop] in Hrun. unfold bind at 1 in Hrun.
      unfold deref in Hrun. rewrite Hobj in Hrun. discriminate.
Qed.

(** However the evaluation loop ends, it has changed neither the store
    nor the cluster and has emitted entries of its logger only. *)
Lemma objectStatusesLoop_frame (resources : list ptr) :
  forall (acc out : list ObjectStatus) (w w' : World Cluster),
    objectStatusesLoop status logger resources acc w = Some (out, w') ->
    heap w' = heap w /\ cluster w' = cluster w /\ emits P w w'.
Proof.
  induction resources as [|p rest IH]; intros acc out w w' Hrun.
  - simpl in Hrun. injection Hrun as _ <-.
    split; [reflexivity |]. split; [reflexivity | apply emits_refl].
  - cbn [objectStatusesLoop] in Hrun.
    apply bind_inv in Hrun as (obj & w0 & Hd & Hrun).
    unfold deref in Hd. destruct (heap w !! p); [| discriminate].
    injection Hd as -> <-.
    destruct (status obj) as [s|err].
    + apply IH in Hrun. exact Hrun.
    + apply bind_inv in Hrun as (u & w1 & Hlog & Hrun).
      unfold LoggerError, emit in Hlog. injection Hlog as _ <-.
      apply IH in Hrun as (Hh & Hc & He). cbn [heap cluster] in Hh, Hc.
      split; [exact Hh |]. split; [exact Hc |].
      eapply emits_trans; [| exact He].
      eexists. split; [reflexivity |]. repeat constructor; auto.
Qed.

End Frames.

Lemma getLoggerOrDie_inv {Cluster} (ctx : Context) (logger : Logger)
    (w w' : World Cluster) :
  getLoggerOrDie ctx w = Some (logger, w') ->
  Value ctx loggerCtxKey = Some logger /\ w' = w.
Proof.
  unfold getLoggerOrDie. destruct (Value ctx loggerCtxKey) as [l|]; [| discriminate].
  intros H. injection H as -> ->. split; reflexivity.
Qed.

(** X6. Discovery only reads: however it ends, it has left the cluster as
    it was, has changed no cell of the store that existed before (it only
    adds cells), has issued no update, and every pointer it returns is
    valid in the store it leaves. *)
Theorem fetchComponentListResources_only_reads {Cluster : Type}
    (r : ApplicationReconciler Cluster) (ctx : Context)
    (groupKinds : list GroupKind) (selector : option LabelSelector)
    (namespace : string) (w w' : World Cluster) (ptrs : list ptr)
    (err : option error) :
  fetchComponentListResources r ctx groupKinds selector namespace w
  = Some ((ptrs, err), w') ->
  cluster w' = cluster w
  /\ heap w `prefix_of` heap w'
  /\ emits (fun ev => isWrite ev = false) w w'
  /\ Forall (fun p => p < length (heap w')) ptrs.
Proof.
  intros Hrun. unfold fetchComponentListResources in Hrun.
  apply bind_inv in Hrun as (logger & w0 & Hlog & Hrun).
  apply getLoggerOrDie_inv in Hlog as [_ ->].
  destruct (fetchLoop_frame r (fun ev => isWrite ev = false) logger
              (fun _ => eq_refl) (fun _ _ _ => eq_refl) (fun _ _ => eq_refl)
              selector namespace groupKinds [] w w' (ptrs, err) Hrun)
    as (Hc & Hh & He).
  split; [exact Hc |]. split; [exact Hh |]. split; [exact He |].
  pose proof (fetchLoop_values r logger selector namespace groupKinds [] [] w
                ltac:(constructor)) as Hv.
  destruct (discovered r (cluster w) selector namespace groupKinds [])
    as [[vals err']|].
  - destruct Hv as (ptrs' & w'' & Hrun' & Hpt & _).
    rewrite Hrun in Hrun'. injection Hrun' as -> _ ->.
    apply (pointsTo_valid _ _ _ Hpt).
  - rewrite Hrun in Hv. discriminate.
Qed.

(** Discovery over a store and a trace that earlier work has left. *)
Lemma fetchComponentListResources_only_reads_witness :
  let w := Mem.usedWorld in
  exists ptrs err w',
    fetchComponentListResources Mem.reconciler Mem.ctx1 [Mem.unknownGK; Mem.widgetGK]
      (Some Mem.selector1) "default" w = Some ((ptrs, err), w')
    /\ cluster w' = cluster w
    /\ heap w `prefix_of` heap w'
    /\ emits (fun ev => isWrite ev = false) w w'
    /\ Forall (fun p => p < length (heap w')) ptrs.
Proof.
  intros w. eexists _, _, _. split; [vm_compute; reflexivity |].
  eapply (fetchComponentListResources_only_reads Mem.reconciler Mem.ctx1
            [Mem.unknownGK; Mem.widgetGK] (Some Mem.selector1) "default" w).
  vm_compute. reflexivity.
Defined.

(** ** The log of a pass *)

Section PassFrame.

Context {Cluster : Type}.
Variable r : ApplicationReconciler Cluster.
Variable status : Unstructured -> string + error.
Variable StatusReady : string.
Variable gv : GroupVersion.
Variable req : Request.
Variable P : Event -> Prop.

Hypothesis P_get : forall nn, P (EvGet nn).
Hypothesis P_mapping : forall gk, P (EvRESTMapping gk).
Hypothesis P_list : forall gvk namespace labels, P (EvList gvk namespace labels).
Hypothesis P_info : forall msg kvs, P (EvLogInfo (requestLogger r req) msg kvs).
Hypothesis P_error : forall e msg kvs, P (EvLogError (requestLogger r req) e msg kvs).
Hypothesis P_update : forall obj, P (EvUpdate obj).
Hypothesis P_write : forall app, P (EvUpdateApplication app).

Lemma requestContext_inv (logger : Logger) (w w' : World Cluster) :
  getLoggerOrDie (requestContext r req) w = Some (logger, w') ->
  logger = requestLogger r req /\ w' = w.
Proof.
  intros H. apply getLoggerOrDie_inv in H as [Hv ->].
  rewrite requestContext_logger in Hv. injection Hv as <-. split; reflexivity.
Qed.

Lemma claimOwnership_frame (app : Application) (resources : list ptr)
    (w w' : World Cluster) (err : option error) :
  claimOwnership r gv (requestContext r req) app resources w = Some (err, w') ->
  emits P w w'.
Proof.
  unfold claimOwnership. destruct (AddOwnerRef (app_Spec app)).
  - intros Hrun. apply bind_inv in Hrun as (o & w0 & Hset & Hrun).
    unfold setController in Hset.
    destruct (or_Controller _); [| discriminate]. injection Hset as _ <-.
    unfold setOwnerRefForResources in Hrun.
    apply bind_inv in Hrun as (logger & w1 & Hlog & Hrun).
    apply requestContext_inv in Hlog as [-> ->].
    apply bind_inv in Hrun as (u & w2 & Hloop & Hret).
    injection Hret as _ <-.
    apply (setOwnerRefLoop_frame r P (requestLogger r req) P_error P_update
             o resources w w2 u Hloop).
  - intros Hrun. injection Hrun as _ <-. apply emits_refl.
Qed.

Lemma composeStatus_frame (w w1 : World Cluster)
    (x : (Result * option error) + (Application * ApplicationStatus)) :
  composeStatus r status StatusReady gv req w = Some (x, w1) -> emits P w w1.
Proof.
  unfold composeStatus. cbv zeta. intros Hrun.
  apply bind_inv in Hrun as (got & w0 & Hget & Hrun).
  unfold Get in Hget. injection Hget as _ <-.
  assert (E0 : emits P w (afterGet req w)).
  { eexists. split; [reflexivity |]. repeat constructor; auto. }
  fold (afterGet req w) in Hrun.
  destruct got as [app|e].
  - destruct (app_DeletionTimestamp app).
    { injection Hrun as _ <-. exact E0. }
    apply bind_inv in Hrun as (fetched & wF & Hfetch & Hrun).
    unfold fetchComponentListResources in Hfetch.
    apply bind_inv in Hfetch as (logger & w' & Hlog & Hfetch).
    apply requestContext_inv in Hlog as [-> ->].
    apply (fetchLoop_frame r P (requestLogger r req) P_mapping P_list P_info)
      in Hfetch as (_ & _ & EF).
    assert (E1 : emits P w wF) by (eapply emits_trans; eassumption).
    destruct fetched as [resources [e|]].
    { injection Hrun as _ <-. exact E1. }
    apply bind_inv in Hrun as (claimed & wC & Hclaim & Hrun).
    apply claimOwnership_frame in Hclaim.
    assert (E2 : emits P w wC) by (eapply emits_trans; eassumption).
    destruct claimed as [e|].
    { injection Hrun as _ <-. exact E2. }
    apply bind_inv in Hrun as (objs & wO & Hobjs & Hrun).
    injection Hrun as _ <-.
    unfold objectStatuses in Hobjs.
    apply bind_inv in Hobjs as (logger & w' & Hlog & Hobjs).
    apply requestContext_inv in Hlog as [-> ->].
    apply (objectStatusesLoop_frame status P (requestLogger r req) P_error)
      in Hobjs as (_ & _ & EO).
    eapply emits_trans; eassumption.
  - destruct (IsNotFound e); injection Hrun as _ <-; exact E0.
Qed.

Lemma Reconcile_frame (w w' : World Cluster) (out : Result * option error) :
  Reconcile r status StatusReady gv req w = Some (out, w') -> emits P w w'.
Proof.
  unfold Reconcile. intros Hrun.
  apply bind_inv in Hrun as (x & w1 & Hcomp & Hrun).
  apply composeStatus_frame in Hcomp.
  eapply emits_trans; [exact Hcomp |].
  destruct x as [returned|[app new]].
  - injection Hrun as _ <-. apply emits_refl.
  - rewrite writeBack_always_updates in Hrun.
    destruct (Client_UpdateApplication r (cluster w1) (withStatus app new)) as [c' e].
    injection Hrun as _ <-.
    eexists. split; [reflexivity |]. repeat constructor; auto.
Qed.

End PassFrame.

(** X7. Every entry that a pass logs, from discovery, from the ownership
    step or from evaluation, goes through the logger of the request: the
    reconciler's logger with the key "application" set to the namespaced
    name of the request. *)
Theorem Reconcile_logs_through_request_logger {Cluster : Type}
    (r : ApplicationReconciler Cluster) (status : Unstructured -> string + error)
    (StatusReady : string) (gv : GroupVersion) (req : Request)
    (w w' : World Cluster) (out : Result * option error) :
  Reconcile r status StatusReady gv req w = Some (out, w') ->
  emits (taggedBy (WithValues (Log r) "application"
                              (LogNamespacedName (req_NamespacedName req)))) w w'.
Proof.
  apply Reconcile_frame; intros; simpl; auto.
Qed.

(** A pass that logs the refused updates of the ownership step. *)
Lemma Reconcile_logs_through_request_logger_witness :
  let c := Mem.owningCluster true in
  exists out w',
    Mem.run c Mem.request1 = Some (out, w')
    /\ emits (taggedBy (WithValues [] "application"
                          (LogNamespacedName (req_NamespacedName Mem.request1))))
             (Mem.start c) w'.
Proof.
  intros c. eexists _, _. split; [vm_compute; reflexivity |].
  apply (Reconcile_logs_through_request_logger Mem.reconciler Mem.statusOf "Ready"
           Mem.groupVersion Mem.request1 (Mem.start c) _ (mkResult false, None)).
  vm_compute. reflexivity.
Defined.

(** ** The outcomes of a pass *)

Lemma writes_none (evs : list Event) :
  Forall (fun ev => isWrite ev = false) evs -> writes evs = [].
Proof.
  intros H. induction H as [|ev evs Hev _ IH]; [reflexivity |].
  unfold writes in *. simpl. rewrite Hev. exact IH.
Qed.

Section Outcomes.

Context {Cluster : Type}.
Variable r : ApplicationReconciler Cluster.
Variable status : Unstructured -> string + error.
Variable StatusReady : string.
Variable gv : GroupVersion.

(** Discovery on values panics exactly on a nil selector with a pair that
    resolves. *)
Lemma discovered_None_iff (c : Cluster) (selector : option LabelSelector)
    (namespace : string) (groupKinds : list GroupKind) :
  forall acc,
    discovered r c selector namespace groupKinds acc = None <->
    selector = None /\ Exists (resolves r c) groupKinds.
Proof.
  induction groupKinds as [|gk rest IH]; intros acc; simpl.
  - split; [discriminate | intros [_ H]; inversion H].
  - destruct (Mapper_RESTMapping r c gk) as [mapping|e] eqn:Hm.
    + destruct selector as [sel|].
      * destruct (Client_List r c (rm_GroupVersionKind mapping) namespace
                              (MatchLabels sel)).
        -- rewrite IH. split; intros [H _]; discriminate.
        -- split; [discriminate | intros [H _]; discriminate].
      * split; [| reflexivity]. intros _. split; [reflexivity |].
        left. exists mapping. exact Hm.
    + rewrite IH. split; intros [Hs Hex]; (split; [exact Hs |]).
      * right. exact Hex.
      * inversion Hex as [gk' rest' [m Hr]|]; subst; [congruence | assumption].
Qed.

Lemma claimOwnership_updates (ctx : Context) (logger : Logger) (app : Application)
    (resources : list ptr) (vals : list Unstructured) (w : World Cluster) :
  Value ctx loggerCtxKey = Some logger ->
  pointsTo (heap w) resources vals ->
  exists w' evs,
    claimOwnership r gv ctx app resources w = Some (None, w')
    /\ pointsTo (heap w') resources (claimedValues gv app vals)
    /\ trace w' = trace w ++ evs
    /\ writes evs = if AddOwnerRef (app_Spec app)
                    then claimUpdates (applicationOwnerRef gv app) vals
                    else [].
Proof.
  intros Hlog Hp.
  destruct (claimOwnership_run r gv ctx logger app resources vals w Hlog Hp)
    as (w' & Hrun & Hpt & _).
  unfold claimOwnership in *. destruct (AddOwnerRef (app_Spec app)).
  - apply bind_inv in Hrun as (o & w0 & Hset & Hrun).
    assert (Ho : o = applicationOwnerRef gv app /\ w0 = w).
    { unfold setController, NewControllerRef, WithKind, ret in Hset. simpl in Hset.
      injection Hset as <- <-. split; [| reflexivity].
      unfold applicationOwnerRef. destruct gv. reflexivity. }
    destruct Ho as [-> ->].
    rewrite (bind_Some _ _ _ _ _ Hset).
    destruct (setOwnerRefLoop_updates r logger (applicationOwnerRef gv app)
                resources w (pointsTo_valid _ _ _ Hp)) as (w2 & evs & Hloop & Htr & Hw).
    assert (Hsame : setOwnerRefForResources r ctx (applicationOwnerRef gv app)
                      resources w = Some (None, w2)).
    { unfold setOwnerRefForResources.
      rewrite (bind_Some _ _ _ _ _ (getLoggerOrDie_run ctx logger w Hlog)).
      rewrite (bind_Some _ _ _ _ _ Hloop). reflexivity. }
    rewrite Hsame in Hrun. injection Hrun as <-.
    exists w2, evs. split; [exact Hsame |]. split; [exact Hpt |].
    split; [exact Htr |]. rewrite Hw. apply updatesAt_pointsTo. exact Hp.
  - injection Hrun as <-. exists w, []. rewrite app_nil_r.
    repeat split; try reflexivity. exact Hpt.
Qed.

(** The first phase of a pass whose discovery succeeds, with its writes. *)
Lemma composeStatus_writes (req : Request) (app : Application)
    (vals : list Unstructured) (w : World Cluster) :
  Client_Get r (cluster w) (req_NamespacedName req) = inl app ->
  app_DeletionTimestamp app = None ->
  discovered r (cluster w) (Selector (app_Spec app)) (app_Namespace app)
             (ComponentGroupKinds (app_Spec app)) [] = Some (vals, None) ->
  exists w1 evs,
    composeStatus r status StatusReady gv req w
    = Some (inr (app, candidateStatus status StatusReady gv app vals), w1)
    /\ trace w1 = trace w ++ evs
    /\ writes evs = if AddOwnerRef (app_Spec app)
                    then claimUpdates (applicationOwnerRef gv app) vals
                    else [].
Proof.
  intros Hget Hdel Hdisc.
  pose proof (fetchComponentListResources_values r (requestContext r req)
                (requestLogger r req) (ComponentGroupKinds (app_Spec app))
                (Selector (app_Spec app)) (app_Namespace app) (afterGet req w)
                (requestContext_logger r req)) as Hf.
  cbn [afterGet cluster] in Hf. rewrite Hdisc in Hf.
  destruct Hf as (ptrs & wF & Hfetch & Hpt & _ & (evsF & HtrF & HFF)).
  destruct (claimOwnership_updates (requestContext r req) (requestLogger r req)
              app ptrs vals wF (requestContext_logger r req) Hpt)
    as (wC & evsC & Hclaim & HptC & HtrC & HwC).
  eexists _, ([EvGet (req_NamespacedName req)] ++ evsF ++ evsC
              ++ evaluationLog status (requestLogger r req)
                   (claimedValues gv app vals)).
  split; [| split].
  - unfold composeStatus. cbv zeta.
    unfold bind at 1. unfold Get at 1. rewrite Hget, Hdel.
    fold (afterGet req w).
    rewrite (bind_Some _ _ _ _ _ Hfetch).
    rewrite (bind_Some _ _ _ _ _ Hclaim).
    rewrite (bind_Some _ _ _ _ _
               (objectStatuses_run status (requestContext r req) (requestLogger r req)
                  ptrs _ wC (requestContext_logger r req) HptC)).
    reflexivity.
  - cbn [trace]. rewrite HtrC, HtrF. cbn [afterGet trace].
    rewrite <- !app_assoc. reflexivity.
  - rewrite !writes_app. rewrite (writes_none evsF HFF).
    rewrite (writes_none _ (evaluationLog_no_write status _ _)).
    rewrite HwC, app_nil_r. reflexivity.
Qed.

(** A pass, outcome by outcome. *)
Lemma Reconcile_cases (req : Request) (w : World Cluster) :
  match Client_Get r (cluster w) (req_NamespacedName req) with
  | inr e =>
      Reconcile r status StatusReady gv req w
      = Some (if IsNotFound e then (mkResult false, None) else (mkResult true, Some e),
              afterGet req w)
  | inl app =>
      match app_DeletionTimestamp app with
      | Some _ =>
          Reconcile r status StatusReady gv req w
          = Some ((mkResult false, None), afterGet req w)
      | None =>
          match discovered r (cluster w) (Selector (app_Spec app)) (app_Namespace app)
                           (ComponentGroupKinds (app_Spec app)) [] with
          | None => Reconcile r status StatusReady gv req w = None
          | Some (_, Some e) =>
              exists w',
                Reconcile r status StatusReady gv req w
                = Some ((mkResult true, Some e), w')
                /\ cluster w' = cluster w
                /\ emits (fun ev => isWrite ev = false) w w'
          | Some (vals, None) =>
              exists w1 evs,
                Reconcile r status StatusReady gv req w
                = writeBack r app (candidateStatus status StatusReady gv app vals) w1
                /\ trace w1 = trace w ++ evs
                /\ writes evs = if AddOwnerRef (app_Spec app)
                                then claimUpdates (applicationOwnerRef gv app) vals
                                else []
          end
      end
  end.
Proof.
  destruct (Client_Get r (cluster w) (req_NamespacedName req)) as [app|e] eqn:Hget.
  - destruct (app_DeletionTimestamp app) as [t|] eqn:Hdel.
    + unfold Reconcile, composeStatus, bind, Get. cbv zeta. cbn beta iota.
      rewrite Hget, Hdel. reflexivity.
    + pose proof (composeStatus_run r status StatusReady gv req app w Hget Hdel) as Hc.
      pose proof (composeStatus_writes req app) as Hw.
      destruct (discovered r (cluster w) (Selector (app_Spec app)) (app_Namespace app)
                  (ComponentGroupKinds (app_Spec app)) []) as [[vals [e|]]|] eqn:Hdisc.
      * destruct Hc as (w' & Hrun & Hcl & Hem). exists w'.
        split; [| split; assumption].
        unfold Reconcile. rewrite (bind_Some _ _ _ _ _ Hrun). reflexivity.
      * destruct (Hw vals w Hget Hdel Hdisc) as (w1 & evs & Hrun & Htr & Hwr).
        exists w1, evs. split; [| split; assumption].
        unfold Reconcile. rewrite (bind_Some _ _ _ _ _ Hrun). reflexivity.
      * unfold Reconcile. rewrite (bind_None _ _ _ Hc). reflexivity.
  - unfold Reconcile, composeStatus, bind, Get. cbv zeta. cbn beta iota.
    rewrite Hget. destruct (IsNotFound e); reflexivity.
Qed.

End Outcomes.

(** X8. A pass over an Application that is found, is not being deleted and
    has no selector (a nil [Selector]) panics as soon as one of its
    component kinds resolves: the nil selector is dereferenced for the
    first listing (line 128), whatever kinds that do not resolve stand
    before it. *)
Theorem Reconcile_panics_on_nil_selector {Cluster : Type}
    (r : ApplicationReconciler Cluster) (status : Unstructured -> string + error)
    (StatusReady : string) (gv : GroupVersion) (req : Request)
    (app : Application) (w : World Cluster) :
  Client_Get r (cluster w) (req_NamespacedName req) = inl app ->
  app_DeletionTimestamp app = None ->
  Selector (app_Spec app) = None ->
  Exists (resolves r (cluster w)) (ComponentGroupKinds (app_Spec app)) ->
  Reconcile r status StatusReady gv req w = None.
Proof.
  intros Hget Hdel Hsel Hex.
  pose proof (Reconcile_cases r status StatusReady gv req w) as Hc.
  rewrite Hget, Hdel in Hc.
  assert (Hn : discovered r (cluster w) (Selector (app_Spec app))
                 (app_Namespace app) (ComponentGroupKinds (app_Spec app)) []
               = None) by (apply discovered_None_iff; auto).
  rewrite Hn in Hc. exact Hc.
Qed.

(** app1 without a selector, with a kind that resolves after one that
    does not. *)
Lemma Reconcile_panics_on_nil_selector_witness :
  Reconcile Mem.reconciler Mem.statusOf "Ready" Mem.groupVersion Mem.request1
    (Mem.start Mem.unselectiveCluster) = None.
Proof.
  apply (Reconcile_panics_on_nil_selector Mem.reconciler Mem.statusOf "Ready"
           Mem.groupVersion Mem.request1 Mem.unselectiveApp1).
  - reflexivity.
  - reflexivity.
  - reflexivity.
  - right. left. exists (mkRESTMapping Mem.widgetGVK). reflexivity.
Defined.

(** X9. A pass asks for a requeue exactly when it returns an error:
    whenever [Reconcile] returns, [Requeue] is true with a non-nil error
    and false with a nil error. *)
Theorem Reconcile_requeues_iff_error {Cluster : Type}
    (r : ApplicationReconciler Cluster) (status : Unstructured -> string + error)
    (StatusReady : string) (gv : GroupVersion) (req : Request)
    (w w' : World Cluster) (res : Result) (err : option error) :
  Reconcile r status StatusReady gv req w = Some ((res, err), w') ->
  res = mkResult (match err with Some _ => true | None => false end).
Proof.
  intros Hrun.
  pose proof (Reconcile_cases r status StatusReady gv req w) as Hc.
  destruct (Client_Get r (cluster w) (req_NamespacedName req)) as [app|e].
  - destruct (app_DeletionTimestamp app) as [t|].
    + rewrite Hc in Hrun. injection Hrun as <- <- _. reflexivity.
    + destruct (discovered r (cluster w) (Selector (app_Spec app)) (app_Namespace app)
                  (ComponentGroupKinds (app_Spec app)) []) as [[vals [e|]]|].
      * destruct Hc as (w1 & Hc & _). rewrite Hc in Hrun.
        injection Hrun as <- <- _. reflexivity.
      * destruct Hc as (w1 & evs & Hc & _). rewrite Hc in Hrun.
        rewrite writeBack_always_updates in Hrun.
        destruct (Client_UpdateApplication r (cluster w1) _) as [c' [e|]];
          injection Hrun as <- <- _; reflexivity.
      * rewrite Hc in Hrun. discriminate.
  - rewrite Hc in Hrun. destruct (IsNotFound e); injection Hrun as <- <- _; reflexivity.
Qed.

(** A pass whose listing fails. *)
Lemma Reconcile_requeues_iff_error_witness :
  exists w',
    Mem.run Mem.unlistableCluster Mem.request1
    = Some ((mkResult true, Some (OtherError "list failed")), w')
    /\ mkResult true
       = mkResult (match Some (OtherError "list failed") with
                   | Some _ => true
                   | None => false
                   end).
Proof.
  eexists. split; [vm_compute; reflexivity |].
  eapply (Reconcile_requeues_iff_error Mem.reconciler Mem.statusOf "Ready"
            Mem.groupVersion Mem.request1 (Mem.start Mem.unlistableCluster) _
            (mkResult true) (Some (OtherError "list failed"))).
  vm_compute. reflexivity.
Defined.

(** X10. The writes of a pass whose discovery succeeds, in order: when the
    Application asks for the ownership claim, one update per discovered
    entry carrying the claimed owner references, none otherwise; then one
    update of the Application, which is the fetched Application with the
    candidate status in place of its status. *)
Theorem Reconcile_writes_in_order {Cluster : Type}
    (r : ApplicationReconciler Cluster) (status : Unstructured -> string + error)
    (StatusReady : string) (gv : GroupVersion) (req : Request)
    (app : Application) (vals : list Unstructured) (w : World Cluster) :
  Client_Get r (cluster w) (req_NamespacedName req) = inl app ->
  app_DeletionTimestamp app = None ->
  discovered r (cluster w) (Selector (app_Spec app)) (app_Namespace app)
             (ComponentGroupKinds (app_Spec app)) [] = Some (vals, None) ->
  exists out w' evs,
    Reconcile r status StatusReady gv req w = Some (out, w')
    /\ trace w' = trace w ++ evs
    /\ writes evs
       = (if AddOwnerRef (app_Spec app)
          then claimUpdates (applicationOwnerRef gv app) vals
          else [])
         ++ [EvUpdateApplication
               (withStatus app (candidateStatus status StatusReady gv app vals))].
Proof.
  intros Hget Hdel Hdisc.
  pose proof (Reconcile_cases r status StatusReady gv req w) as Hc.
  rewrite Hget, Hdel, Hdisc in Hc.
  destruct Hc as (w1 & evs & Hrun & Htr & Hw).
  rewrite writeBack_always_updates in Hrun.
  destruct (Client_UpdateApplication r (cluster w1) _) as [c' err].
  eexists _, _, (evs ++ [_]). split; [exact Hrun |]. split.
  - cbn [trace]. rewrite Htr, <- app_assoc. reflexivity.
  - rewrite writes_app, Hw. reflexivity.
Qed.

(** app1 claiming its two Widgets on a cluster that refuses the updates of
    resources. *)
Lemma Reconcile_writes_in_order_witness :
  let c := Mem.owningCluster true in
  let vals := [Mem.widgetB; Mem.widgetB] in
  exists out w' evs,
    Mem.run c Mem.request1 = Some (out, w')
    /\ trace w' = trace (Mem.start c) ++ evs
    /\ writes evs
       = (if AddOwnerRef (app_Spec Mem.owningApp1)
          then claimUpdates (applicationOwnerRef Mem.groupVersion Mem.owningApp1) vals
          else [])
         ++ [EvUpdateApplication
               (withStatus Mem.owningApp1
                  (candidateStatus Mem.statusOf "Ready" Mem.groupVersion
                                   Mem.owningApp1 vals))].
Proof.
  apply (Reconcile_writes_in_order Mem.reconciler Mem.statusOf "Ready"
           Mem.groupVersion Mem.request1); vm_compute; reflexivity.
Defined.

(** X11. A pass whose discovery ends in a list failure changes nothing: it
    returns a requeue with the error of the listing, has issued no update
    of a resource or of the Application, and leaves the cluster as it
    was. *)
Theorem Reconcile_list_failure_changes_nothing {Cluster : Type}
    (r : ApplicationReconciler Cluster) (status : Unstructured -> string + error)
    (StatusReady : string) (gv : GroupVersion) (req : Request)
    (app : Application) (vals : list Unstructured) (e : error) (w : World Cluster) :
  Client_Get r (cluster w) (req_NamespacedName req) = inl app ->
  app_DeletionTimestamp app = None ->
  discovered r (cluster w) (Selector (app_Spec app)) (app_Namespace app)
             (ComponentGroupKinds (app_Spec app)) [] = Some (vals, Some e) ->
  exists w' evs,
    Reconcile r status StatusReady gv req w = Some ((mkResult true, Some e), w')
    /\ cluster w' = cluster w
    /\ trace w' = trace w ++ evs
    /\ writes evs = [].
Proof.
  intros Hget Hdel Hdisc.
  pose proof (Reconcile_cases r status StatusReady gv req w) as Hc.
  rewrite Hget, Hdel, Hdisc in Hc.
  destruct Hc as (w' & Hrun & Hcl & (evs & Htr & HF)).
  exists w', evs. split; [exact Hrun |]. split; [exact Hcl |].
  split; [exact Htr | apply writes_none; exact HF].
Qed.

(** The pass over the cluster whose listings fail. *)
Lemma Reconcile_list_failure_changes_nothing_witness :
  let w := Mem.start Mem.unlistableCluster in
  exists w' evs,
    Reconcile Mem.reconciler Mem.statusOf "Ready" Mem.groupVersion Mem.request1 w
    = Some ((mkResult true, Some (OtherError "list failed")), w')
    /\ cluster w' = cluster w
    /\ trace w' = trace w ++ evs
    /\ writes evs = [].
Proof.
  apply (Reconcile_list_failure_changes_nothing Mem.reconciler Mem.statusOf "Ready"
           Mem.groupVersion Mem.request1 (Mem.app1 Mem.emptyStatus) []);
    vm_compute; reflexivity.
Defined.

(** ** When discovery returns what was listed *)

Section ExactDiscovery.

Context {Cluster : Type}.
Variable r : ApplicationReconciler Cluster.

Lemma discovered_exact (c : Cluster) (sel : LabelSelector) (namespace : string)
    (groupKinds : list GroupKind) :
  Forall (listsAtMostOne r c sel namespace) groupKinds ->
  forall acc,
    discovered r c (Some sel) namespace groupKinds acc
    = Some (acc ++ discover_spec r c groupKinds (MatchLabels sel) namespace, None).
Proof.
  intros Hall. induction Hall as [|gk rest Hgk _ IH]; intros acc; simpl.
  - rewrite app_nil_r. reflexivity.
  - unfold listsAtMostOne in Hgk.
    destruct (Mapper_RESTMapping r c gk) as [mapping|e].
    + destruct (Hgk mapping eq_refl) as (items & -> & Hlen).
      rewrite IH, (aliased_short items Hlen), app_assoc. reflexivity.
    + apply IH.
Qed.

Lemma discovered_all_unknown (c : Cluster) (selector : option LabelSelector)
    (namespace : string) (groupKinds : list GroupKind) :
  Forall (fun gk => exists e, Mapper_RESTMapping r c gk = inr e) groupKinds ->
  forall acc, discovered r c selector namespace groupKinds acc = Some (acc, None).
Proof.
  intros Hall. induction Hall as [|gk rest [e He] _ IH]; intros acc; simpl.
  - reflexivity.
  - rewrite He. apply IH.
Qed.

End ExactDiscovery.

(** X12. When every pair that resolves lists at most one item, discovery
    returns exactly what was listed: pointers to the items of the
    resolvable pairs, in the order of [groupKinds], and no error. *)
Theorem fetchComponentListResources_exact_on_short_listings {Cluster : Type}
    (r : ApplicationReconciler Cluster) (ctx : Context) (logger : Logger)
    (groupKinds : list GroupKind) (sel : LabelSelector) (namespace : string)
    (w : World Cluster) :
  Value ctx loggerCtxKey = Some logger ->
  Forall (listsAtMostOne r (cluster w) sel namespace) groupKinds ->
  exists ptrs w',
    fetchComponentListResources r ctx groupKinds (Some sel) namespace w
    = Some ((ptrs, None), w')
    /\ derefs (heap w') ptrs
       = Some (discover_spec r (cluster w) groupKinds (MatchLabels sel) namespace).
Proof.
  intros Hlog Hall.
  pose proof (fetchComponentListResources_values r ctx logger groupKinds (Some sel)
                namespace w Hlog) as Hv.
  rewrite (discovered_exact r (cluster w) sel namespace groupKinds Hall []) in Hv.
  destruct Hv as (ptrs & w' & Hrun & Hpt & _).
  exists ptrs, w'. split; [exact Hrun |]. apply derefs_Some. exact Hpt.
Qed.

(** Three kinds with one component each. *)
Lemma fetchComponentListResources_exact_on_short_listings_witness :
  let w := Mem.start Mem.cluster3 in
  let groupKinds := [Mem.widgetGK; Mem.gadgetGK; Mem.gizmoGK] in
  exists ptrs w',
    fetchComponentListResources Mem.reconciler Mem.ctx1 groupKinds
      (Some Mem.selector1) "default" w = Some ((ptrs, None), w')
    /\ derefs (heap w') ptrs
       = Some (discover_spec Mem.reconciler (cluster w) groupKinds
                             (MatchLabels Mem.selector1) "default").
Proof.
  apply (fetchComponentListResources_exact_on_short_listings Mem.reconciler
           Mem.ctx1 Mem.logger1).
  - reflexivity.
  - repeat constructor; intros mapping Hm; vm_compute in Hm; injection Hm as <-;
      eexists; (split; [vm_compute; reflexivity | simpl; lia]).
Defined.

(** ** Applications without components *)

(** X14. A pass over a live Application none of whose component kinds
    resolves, and so also one that names no kind, does not need a selector,
    updates no resource, and writes the Application with an empty
    component list and the condition of a ready aggregate. *)
Theorem Reconcile_without_components_reports_ready {Cluster : Type}
    (r : ApplicationReconciler Cluster) (status : Unstructured -> string + error)
    (StatusReady : string) (gv : GroupVersion) (req : Request)
    (app : Application) (w : World Cluster) :
  Client_Get r (cluster w) (req_NamespacedName req) = inl app ->
  app_DeletionTimestamp app = None ->
  Forall (fun gk => exists e, Mapper_RESTMapping r (cluster w) gk = inr e)
         (ComponentGroupKinds (app_Spec app)) ->
  exists out w' evs,
    Reconcile r status StatusReady gv req w = Some (out, w')
    /\ trace w' = trace w ++ evs
    /\ writes evs
       = [EvUpdateApplication
            (withStatus app
               (setReadyCondition
                  {| ObservedGeneration := app_Generation app;
                     Conditions := Conditions (app_Status app);
                     st_ComponentList := mkComponentList [] |}
                  "ComponentsReady" "all components ready"))].
Proof.
  intros Hget Hdel Hall.
  pose proof (Reconcile_cases r status StatusReady gv req w) as Hc.
  rewrite Hget, Hdel in Hc.
  rewrite (discovered_all_unknown r (cluster w) _ _ _ Hall []) in Hc.
  destruct Hc as (w1 & evs & Hrun & Htr & Hw).
  rewrite writeBack_always_updates in Hrun.
  destruct (Client_UpdateApplication r (cluster w1) _) as [c' err].
  eexists _, _, (evs ++ [_]). split; [exact Hrun |]. split.
  - cbn [trace]. rewrite Htr, <- app_assoc. reflexivity.
  - rewrite writes_app, Hw.
    unfold claimUpdates, candidateStatus, claimedValues.
    destruct (AddOwnerRef (app_Spec app)); reflexivity.
Qed.

(** app1 naming only a kind that the mapper does not know, without a
    selector. *)
Lemma Reconcile_without_components_reports_ready_witness :
  let app := mkApplication "default" "app1" "uid-1" 1 None
                           (mkApplicationSpec [Mem.unknownGK] None true)
                           Mem.emptyStatus in
  let w := Mem.start (Mem.mkCluster [app] [(Mem.widgetGK, Mem.widgetGVK)]
                                    [Mem.widgetA] false false false false) in
  exists out w' evs,
    Reconcile Mem.reconciler Mem.statusOf "Ready" Mem.groupVersion Mem.request1 w
    = Some (out, w')
    /\ trace w' = trace w ++ evs
    /\ writes evs
       = [EvUpdateApplication
            (withStatus app
               (setReadyCondition
                  {| ObservedGeneration := app_Generation app;
                     Conditions := Conditions (app_Status app);
                     st_ComponentList := mkComponentList [] |}
                  "ComponentsReady" "all components ready"))].
Proof.
  apply (Reconcile_without_components_reports_ready Mem.reconciler Mem.statusOf
           "Ready" Mem.groupVersion Mem.request1).
  - reflexivity.
  - reflexivity.
  - repeat constructor. exists (OtherError "no matches for kind"). reflexivity.
Defined.

(** ** The owner reference a pass sends *)

Lemma sameOwner_fields (o ref : OwnerReference) :
  sameOwner o ref = true ->
  or_Kind ref = or_Kind o /\ or_APIVersion ref = or_APIVersion o
  /\ or_Name ref = or_Name o.
Proof.
  unfold sameOwner. intros H.
  apply andb_true_iff in H as [H Hn]. apply andb_true_iff in H as [Hk Ha].
  apply String.eqb_eq in Hk, Ha, Hn. auto.
Qed.

Lemma claimOwnerRefs_has_owner (o : OwnerReference) (l : list OwnerReference) :
  exists ref, ref ∈ claimOwnerRefs o l /\ sameOwner o ref = true
              /\ or_UID ref = or_UID o.
Proof.
  rewrite claimOwnerRefs_refines. unfold claim_spec.
  destruct (existsb (sameOwner o) l) eqn:He.
  - apply existsb_exists in He as (x & Hin & Hs).
    exists (overwrite o x). split.
    + apply list_elem_of_fmap. exists x. split; [reflexivity |].
      apply list_elem_of_In. exact Hin.
    + rewrite sameOwner_overwrite. split; [exact Hs |].
      apply overwrite_current. rewrite sameOwner_overwrite. exact Hs.
  - exists o. split; [| split; [apply sameOwner_refl | reflexivity]].
    apply elem_of_app. right. apply list_elem_of_singleton. reflexivity.
Qed.

Lemma elem_of_writes (ev : Event) (evs : list Event) :
  ev ∈ evs -> isWrite ev = true -> ev ∈ writes evs.
Proof.
  intros Hin Hw. apply list_elem_of_In. apply filter_In.
  split; [apply list_elem_of_In; exact Hin | exact Hw].
Qed.

(** X15. Every resource that a pass sends to the client carries a
    reference to the Application: an owner reference of kind
    "Application", with the API version of the Application's group and
    version, the name of the Application and its UID. *)
Theorem Reconcile_updates_carry_owner {Cluster : Type}
    (r : ApplicationReconciler Cluster) (status : Unstructured -> string + error)
    (StatusReady : string) (gv : GroupVersion) (req : Request)
    (app : Application) (w w' : World Cluster) (out : Result * option error)
    (evs : list Event) (obj : Unstructured) :
  Client_Get r (cluster w) (req_NamespacedName req) = inl app ->
  Reconcile r status StatusReady gv req w = Some (out, w') ->
  trace w' = trace w ++ evs ->
  EvUpdate obj ∈ evs ->
  exists ref,
    ref ∈ GetOwnerReferences obj
    /\ or_Kind ref = "Application"
    /\ or_APIVersion ref = GroupVersion_String gv
    /\ or_Name ref = app_Name app
    /\ or_UID ref = app_UID app.
Proof.
  intros Hget Hrun Htr Hin.
  pose proof (Reconcile_cases r status StatusReady gv req w) as Hc.
  rewrite Hget in Hc.
  assert (Hw : EvUpdate obj ∈ writes evs) by (apply elem_of_writes; auto).
  destruct (app_DeletionTimestamp app) as [t|].
  { rewrite Hc in Hrun. injection Hrun as _ <-. cbn [afterGet trace] in Htr.
    apply app_inv_head in Htr. subst evs. simpl in Hw.
    apply list_elem_of_In in Hw. destruct Hw. }
  destruct (discovered r (cluster w) (Selector (app_Spec app)) (app_Namespace app)
              (ComponentGroupKinds (app_Spec app)) []) as [[vals [e|]]|].
  - destruct Hc as (w1 & Hc & _ & (evs1 & Htr1 & HF)).
    rewrite Hc in Hrun. injection Hrun as _ <-.
    rewrite Htr1 in Htr. apply app_inv_head in Htr. subst evs.
    rewrite (writes_none _ HF) in Hw. apply list_elem_of_In in Hw. destruct Hw.
  - destruct Hc as (w1 & evs1 & Hc & Htr1 & Hw1).
    rewrite Hc, writeBack_always_updates in Hrun.
    destruct (Client_UpdateApplication r (cluster w1) _) as [c' err].
    injection Hrun as _ <-. cbn [trace] in Htr.
    rewrite Htr1, <- app_assoc in Htr. apply app_inv_head in Htr. subst evs.
    rewrite writes_app, Hw1 in Hw. apply elem_of_app in Hw as [Hw|Hw].
    + destruct (AddOwnerRef (app_Spec app)).
      * unfold claimUpdates in Hw. apply list_elem_of_fmap in Hw as (v & Heq & _).
        injection Heq as ->.
        destruct (claimOwnerRefs_has_owner (applicationOwnerRef gv app)
                    (GetOwnerReferences v)) as (ref & Href & Hs & Hu).
        apply sameOwner_fields in Hs as (Hk & Ha & Hn).
        exists ref. split; [exact Href |]. auto.
      * apply list_elem_of_In in Hw. destruct Hw.
    + simpl in Hw. apply list_elem_of_singleton in Hw. discriminate.
  - rewrite Hc in Hrun. discriminate.
Qed.

(** The update of Widget b in the pass of app1 over the cluster that
    accepts updates. *)
Lemma Reconcile_updates_carry_owner_witness :
  exists ref,
    ref ∈ GetOwnerReferences
            (claimResource (applicationOwnerRef Mem.groupVersion Mem.owningApp1)
                           Mem.widgetB)
    /\ or_Kind ref = "Application"
    /\ or_APIVersion ref = GroupVersion_String Mem.groupVersion
    /\ or_Name ref = app_Name Mem.owningApp1
    /\ or_UID ref = app_UID Mem.owningApp1.
Proof.
  destruct (Mem.run (Mem.owningCluster false) Mem.request1) as [[out w']|] eqn:Hrun;
    [| vm_compute in Hrun; discriminate].
  eapply (Reconcile_updates_carry_owner Mem.reconciler Mem.statusOf "Ready"
            Mem.groupVersion Mem.request1 Mem.owningApp1
            (Mem.start (Mem.owningCluster false)) w' out
            (drop 0 (trace w'))).
  - reflexivity.
  - exact Hrun.
  - reflexivity.
  - vm_compute in Hrun. injection Hrun as _ <-. simpl.
    right. right. right. left.
Defined.

(** ** What discovery can return *)

Lemma elem_of_aliased (items : list Unstructured) (v : Unstructured) :
  v ∈ aliased items -> v ∈ items.
Proof.
  unfold aliased. intros Hin. apply elem_of_replicate in Hin as [-> Hn].
  destruct (last items) as [x|] eqn:Hl.
  - simpl. apply last_Some in Hl as (l' & ->).
    apply elem_of_app. right. apply list_elem_of_singleton. reflexivity.
  - apply last_None in Hl. subst. simpl in Hn. congruence.
Qed.

Section Listed.

Context {Cluster : Type}.
Variable r : ApplicationReconciler Cluster.

Lemma discovered_listed (c : Cluster) (sel : LabelSelector) (namespace : string)
    (groupKinds : list GroupKind) :
  forall acc vals,
    discovered r c (Some sel) namespace groupKinds acc = Some (vals, None) ->
    exists found,
      vals = acc ++ found
      /\ length found
         = length (discover_spec r c groupKinds (MatchLabels sel) namespace)
      /\ forall v, v ∈ found ->
                   v ∈ discover_spec r c groupKinds (MatchLabels sel) namespace.
Proof.
  induction groupKinds as [|gk rest IH]; intros acc vals Hd; simpl in *.
  - injection Hd as <-. exists []. rewrite app_nil_r.
    split; [reflexivity |]. split; [reflexivity |]. intros v Hv. inversion Hv.
  - destruct (Mapper_RESTMapping r c gk) as [mapping|e].
    + destruct (Client_List r c (rm_GroupVersionKind mapping) namespace
                            (MatchLabels sel)) as [items|err]; [| discriminate].
      apply IH in Hd as (found & -> & Hlen & Hin).
      exists (aliased items ++ found). split; [apply eq_sym, app_assoc |].
      split.
      * rewrite !length_app, aliased_length, Hlen. reflexivity.
      * intros v Hv. apply elem_of_app in Hv as [Hv|Hv]; apply elem_of_app.
        -- left. apply elem_of_aliased. exact Hv.
        -- right. apply Hin. exact Hv.
    + apply IH in Hd as (found & -> & Hlen & Hin).
      exists found. auto.
Qed.

End Listed.

(** X16. A discovery that returns without error returns as many entries as
    the resolvable pairs listed, and every entry is one of the listed
    items: it returns no resource that was not listed, though it may
    return a listed item in the place of another of the same listing. *)
Theorem fetchComponentListResources_returns_listed_items {Cluster : Type}
    (r : ApplicationReconciler Cluster) (ctx : Context)
    (groupKinds : list GroupKind) (sel : LabelSelector) (namespace : string)
    (w w' : World Cluster) (ptrs : list ptr) :
  fetchComponentListResources r ctx groupKinds (Some sel) namespace w
  = Some ((ptrs, None), w') ->
  exists vals,
    derefs (heap w') ptrs = Some vals
    /\ length vals
       = length (discover_spec r (cluster w) groupKinds (MatchLabels sel) namespace)
    /\ forall v, v ∈ vals ->
                 v ∈ discover_spec r (cluster w) groupKinds (MatchLabels sel) namespace.
Proof.
  intros Hrun.
  assert (Hlog : exists logger, Value ctx loggerCtxKey = Some logger).
  { unfold fetchComponentListResources in Hrun.
    apply bind_inv in Hrun as (logger & w0 & Hl & _).
    apply getLoggerOrDie_inv in Hl as [Hl _]. exists logger. exact Hl. }
  destruct Hlog as [logger Hlog].
  pose proof (fetchComponentListResources_values r ctx logger groupKinds (Some sel)
                namespace w Hlog) as Hv.
  destruct (discovered r (cluster w) (Some sel) namespace groupKinds [])
    as [[vals err]|] eqn:Hd.
  - destruct Hv as (ptrs' & w'' & Hrun' & Hpt & _).
    rewrite Hrun in Hrun'. injection Hrun' as <- <- <-.
    apply discovered_listed in Hd as (found & -> & Hlen & Hin).
    exists found. split; [apply derefs_Some; exact Hpt |]. auto.
  - rewrite Hrun in Hv. discriminate.
Qed.

(** The listing of two Widgets. *)
Lemma fetchComponentListResources_returns_listed_items_witness :
  let w := Mem.start (Mem.clusterWith Mem.emptyStatus [Mem.widgetA; Mem.widgetB]) in
  exists ptrs w' vals,
    fetchComponentListResources Mem.reconciler Mem.ctx1 [Mem.widgetGK]
      (Some Mem.selector1) "default" w = Some ((ptrs, None), w')
    /\ derefs (heap w') ptrs = Some vals
    /\ length vals
       = length (discover_spec Mem.reconciler (cluster w) [Mem.widgetGK]
                               (MatchLabels Mem.selector1) "default")
    /\ forall v, v ∈ vals ->
                 v ∈ discover_spec Mem.reconciler (cluster w) [Mem.widgetGK]
                       (MatchLabels Mem.selector1) "default".
Proof.
  intros w.
  destruct (fetchComponentListResources Mem.reconciler Mem.ctx1 [Mem.widgetGK]
              (Some Mem.selector1) "default" w) as [[[ptrs [e|]] w']|] eqn:Hrun;
    try (vm_compute in Hrun; discriminate).
  destruct (fetchComponentListResources_returns_listed_items Mem.reconciler Mem.ctx1
              [Mem.widgetGK] Mem.selector1 "default" w w' ptrs Hrun)
    as (vals & H).
  exists ptrs, w', vals. split; [reflexivity | exact H].
Defined.
